(** * Class synthesis helpers of the native-class codemod

    A shallow embedding of [transforms/helpers/transform-helper.js]: the
    syntax tree it reads and builds, the jscodeshift operations it calls
    ([find], [forEach], [replaceWith]), and the helper functions themselves,
    followed by the properties proved about them. *)

From stdpp Require Import base list strings option.

Open Scope string_scope.
Open Scope list_scope.

(** ** Syntax tree *)

(** Comments are opaque to the helpers: they are only copied. *)
Definition Comment := string.

(** A property key.  Keys are leaves of the tree (an identifier or a
    literal): the helpers share one key node between the property, the method
    built from it and every [super.<key>(...)] call, so a key is never a place
    where statements live. *)
Inductive Key : Type :=
| KeyIdentifier (name : string)
| KeyLiteral (raw : string).

(** The node kinds of the ESTree grammar that the helpers read or build.
    Expressions, object properties and statements are separate sorts, as in
    the grammar. *)
#[local] Unset Elimination Schemes.
Inductive expr : Type :=
| Identifier (name : string)
| Literal (raw : string)
| ThisExpression
| Super
| MemberExpression (object property : expr) (computed : bool)
| CallExpression (callee : expr) (arguments : list expr)
| AssignmentExpression (operator : string) (left right : expr)
| FunctionExpression (id : option string) (params : list expr) (body : stmt)
| ObjectExpression (properties : list prop)
with prop : Type :=
| Property (kind : string) (key : Key) (value : expr) (comments : list Comment)
with stmt : Type :=
| ExpressionStatement (expression : expr) (comments : list Comment)
| BlockStatement (body : list stmt)
| IfStatement (test : expr) (consequent : stmt) (alternate : option stmt)
| WhileStatement (test : expr) (body : stmt)
| ReturnStatement (argument : option expr).
#[local] Set Elimination Schemes.

(** Induction on the syntax tree: the arrays and the optional children of a
    node come with their induction hypotheses. *)
Section AstInd.
Variables (Pe : expr -> Prop) (Pp : prop -> Prop) (Ps : stmt -> Prop).
Hypothesis H_Identifier : forall n, Pe (Identifier n).
Hypothesis H_Literal : forall r, Pe (Literal r).
Hypothesis H_This : Pe ThisExpression.
Hypothesis H_Super : Pe Super.
Hypothesis H_Member : forall o p c, Pe o -> Pe p -> Pe (MemberExpression o p c).
Hypothesis H_Call : forall c args, Pe c -> Forall Pe args -> Pe (CallExpression c args).
Hypothesis H_Assign : forall op l r, Pe l -> Pe r -> Pe (AssignmentExpression op l r).
Hypothesis H_Function : forall id ps b,
  Forall Pe ps -> Ps b -> Pe (FunctionExpression id ps b).
Hypothesis H_Object : forall props, Forall Pp props -> Pe (ObjectExpression props).
Hypothesis H_Property : forall k key v cs, Pe v -> Pp (Property k key v cs).
Hypothesis H_Expression : forall e cs, Pe e -> Ps (ExpressionStatement e cs).
Hypothesis H_Block : forall b, Forall Ps b -> Ps (BlockStatement b).
Hypothesis H_If : forall t c a,
  Pe t -> Ps c -> from_option Ps True a -> Ps (IfStatement t c a).
Hypothesis H_While : forall t b, Pe t -> Ps b -> Ps (WhileStatement t b).
Hypothesis H_Return : forall a, from_option Pe True a -> Ps (ReturnStatement a).

Fixpoint expr_ind' (e : expr) : Pe e :=
  match e with
  | Identifier n => H_Identifier n
  | Literal r => H_Literal r
  | ThisExpression => H_This
  | Super => H_Super
  | MemberExpression o p c => H_Member o p c (expr_ind' o) (expr_ind' p)
  | CallExpression c args =>
      H_Call c args (expr_ind' c)
        ((fix go (l : list expr) : Forall Pe l :=
            match l with
            | [] => Forall_nil Pe
            | x :: l' => Forall_cons Pe x l' (expr_ind' x) (go l')
            end) args)
  | AssignmentExpression op l r => H_Assign op l r (expr_ind' l) (expr_ind' r)
  | FunctionExpression id ps b =>
      H_Function id ps b
        ((fix go (l : list expr) : Forall Pe l :=
            match l with
            | [] => Forall_nil Pe
            | x :: l' => Forall_cons Pe x l' (expr_ind' x) (go l')
            end) ps)
        (stmt_ind' b)
  | ObjectExpression props =>
      H_Object props
        ((fix go (l : list prop) : Forall Pp l :=
            match l with
            | [] => Forall_nil Pp
            | x :: l' => Forall_cons Pp x l' (prop_ind' x) (go l')
            end) props)
  end
with prop_ind' (p : prop) : Pp p :=
  match p with
  | Property k key v cs => H_Property k key v cs (expr_ind' v)
  end
with stmt_ind' (s : stmt) : Ps s :=
  match s with
  | ExpressionStatement e cs => H_Expression e cs (expr_ind' e)
  | BlockStatement b =>
      H_Block b
        ((fix go (l : list stmt) : Forall Ps l :=
            match l with
            | [] => Forall_nil Ps
            | x :: l' => Forall_cons Ps x l' (stmt_ind' x) (go l')
            end) b)
  | IfStatement t c a =>
      H_If t c a (expr_ind' t) (stmt_ind' c)
        (match a return from_option Ps True a with
         | Some a' => stmt_ind' a'
         | None => I
         end)
  | WhileStatement t b => H_While t b (expr_ind' t) (stmt_ind' b)
  | ReturnStatement a =>
      H_Return a
        (match a return from_option Pe True a with
         | Some a' => expr_ind' a'
         | None => I
         end)
  end.

Lemma ast_ind : (forall e, Pe e) /\ (forall p, Pp p) /\ (forall s, Ps s).
Proof. exact (conj expr_ind' (conj prop_ind' stmt_ind')). Qed.
End AstInd.

(** The node a key stands for where an expression is expected. *)
Definition key_node (k : Key) : expr :=
  match k with
  | KeyIdentifier name => Identifier name
  | KeyLiteral raw => Literal raw
  end.

(** [j.memberExpression(object, property)], called without the [computed]
    flag as the helpers do: the builder sets the flag itself, to [true] when
    the property is a literal or a member expression, to [false]
    otherwise. *)
Definition memberExpression (object property : expr) : expr :=
  MemberExpression object property
    (match property with
     | Literal _ | MemberExpression _ _ _ => true
     | _ => false
     end).

(** The [type] tag of an expression node. *)
Definition expr_type (e : expr) : string :=
  match e with
  | Identifier _ => "Identifier"
  | Literal _ => "Literal"
  | ThisExpression => "ThisExpression"
  | Super => "Super"
  | MemberExpression _ _ _ => "MemberExpression"
  | CallExpression _ _ => "CallExpression"
  | AssignmentExpression _ _ _ => "AssignmentExpression"
  | FunctionExpression _ _ _ => "FunctionExpression"
  | ObjectExpression _ => "ObjectExpression"
  end.

(** ** Node paths

    jscodeshift hands out [NodePath]s: the node found ([path.value]) together
    with the chain of field names and array indices that leads to it from the
    root of the collection. *)
Inductive field : Type :=
| f_object | f_property | f_callee | f_arguments | f_left | f_right
| f_params | f_body | f_properties | f_value | f_expression | f_test
| f_consequent | f_alternate | f_argument | f_decorators.

Inductive step : Type :=
| Fld (f : field)
| Idx (i : nat).

Record NodePath : Type := mkPath {
  path_loc : list step;
  path_value : stmt
}.

(** The paths [ps], seen from a parent that reaches their root by [s]. *)
Definition under (s : step) (ps : list NodePath) : list NodePath :=
  map (fun p => mkPath (s :: path_loc p) (path_value p)) ps.

(** The paths found in the elements of an array, element [i0] first. *)
Definition each {A : Type} (find : A -> list NodePath)
  : nat -> list A -> list NodePath :=
  fix go (i0 : nat) (l : list A) : list NodePath :=
    match l with
    | [] => []
    | x :: l' => under (Idx i0) (find x) ++ go (S i0) l'
    end.

Section Find.
(** [j(root).find(j.ExpressionStatement, filter)]: every expression
    statement below the root that matches [filter], in the order of a
    depth-first traversal that visits a node before its children and the
    children in field order.  A matching statement is still traversed, so
    matches nested in it are found as well. *)
Variable filter : stmt -> bool.

Definition visitExpressionStatement (s : stmt) : list NodePath :=
  match s with
  | ExpressionStatement _ _ => if filter s then [mkPath [] s] else []
  | _ => []
  end.

Fixpoint find_expr (e : expr) : list NodePath :=
  match e with
  | Identifier _ | Literal _ | ThisExpression | Super => []
  | MemberExpression o p _ =>
      under (Fld f_object) (find_expr o) ++ under (Fld f_property) (find_expr p)
  | CallExpression c args =>
      under (Fld f_callee) (find_expr c)
      ++ under (Fld f_arguments) (each find_expr 0 args)
  | AssignmentExpression _ l r =>
      under (Fld f_left) (find_expr l) ++ under (Fld f_right) (find_expr r)
  | FunctionExpression _ ps b =>
      under (Fld f_params) (each find_expr 0 ps) ++ under (Fld f_body) (find_stmt b)
  | ObjectExpression props =>
      under (Fld f_properties) (each find_prop 0 props)
  end
with find_prop (p : prop) : list NodePath :=
  match p with
  | Property _ _ v _ => under (Fld f_value) (find_expr v)
  end
with find_stmt (s : stmt) : list NodePath :=
  visitExpressionStatement s ++
  match s with
  | ExpressionStatement e _ => under (Fld f_expression) (find_expr e)
  | BlockStatement b => under (Fld f_body) (each find_stmt 0 b)
  | IfStatement t c a =>
      under (Fld f_test) (find_expr t)
      ++ under (Fld f_consequent) (find_stmt c)
      ++ under (Fld f_alternate)
           (match a with Some a' => find_stmt a' | None => [] end)
  | WhileStatement t b =>
      under (Fld f_test) (find_expr t) ++ under (Fld f_body) (find_stmt b)
  | ReturnStatement a =>
      under (Fld f_argument)
        (match a with Some a' => find_expr a' | None => [] end)
  end.
End Find.

(** [j(path).replaceWith(new)]: the statement at the end of the path is
    replaced in its parent (a field of a node, or a slot of an array).  The
    tree is mutated in place, so the effect is visible from the root only
    while the chain of parents is still part of the tree: where the chain no
    longer leads anywhere the root is left as it is. *)
Fixpoint replace_expr (l : list step) (new : stmt) (e : expr) {struct l} : expr :=
  match l with
  | Fld f :: q =>
      match f, e with
      | f_object, MemberExpression o p c => MemberExpression (replace_expr q new o) p c
      | f_property, MemberExpression o p c => MemberExpression o (replace_expr q new p) c
      | f_callee, CallExpression c args => CallExpression (replace_expr q new c) args
      | f_arguments, CallExpression c args =>
          match q with
          | Idx i :: q' => CallExpression c (alter (replace_expr q' new) i args)
          | _ => e
          end
      | f_left, AssignmentExpression op a b => AssignmentExpression op (replace_expr q new a) b
      | f_right, AssignmentExpression op a b => AssignmentExpression op a (replace_expr q new b)
      | f_params, FunctionExpression id ps b =>
          match q with
          | Idx i :: q' => FunctionExpression id (alter (replace_expr q' new) i ps) b
          | _ => e
          end
      | f_body, FunctionExpression id ps b => FunctionExpression id ps (replace_stmt q new b)
      | f_properties, ObjectExpression props =>
          match q with
          | Idx i :: q' => ObjectExpression (alter (replace_prop q' new) i props)
          | _ => e
          end
      | _, _ => e
      end
  | _ => e
  end
with replace_prop (l : list step) (new : stmt) (p : prop) {struct l} : prop :=
  match l, p with
  | Fld f_value :: q, Property k key v cs => Property k key (replace_expr q new v) cs
  | _, _ => p
  end
with replace_stmt (l : list step) (new : stmt) (s : stmt) {struct l} : stmt :=
  match l with
  | [] => new
  | Fld f :: q =>
      match f, s with
      | f_expression, ExpressionStatement e cs => ExpressionStatement (replace_expr q new e) cs
      | f_body, BlockStatement b =>
          match q with
          | Idx i :: q' => BlockStatement (alter (replace_stmt q' new) i b)
          | _ => s
          end
      | f_test, IfStatement t c a => IfStatement (replace_expr q new t) c a
      | f_consequent, IfStatement t c a => IfStatement t (replace_stmt q new c) a
      | f_alternate, IfStatement t c (Some a) => IfStatement t c (Some (replace_stmt q new a))
      | f_test, WhileStatement t b => WhileStatement (replace_expr q new t) b
      | f_body, WhileStatement t b => WhileStatement t (replace_stmt q new b)
      | f_argument, ReturnStatement (Some a) => ReturnStatement (Some (replace_expr q new a))
      | _, _ => s
      end
  | Idx _ :: _ => s
  end.

(** Replacement in a slot of an array: what [replaceWith] does below a field
    that holds an array of nodes. *)
Definition replace_in {T : Type} (replace : list step -> stmt -> T -> T)
    (l : list step) (new : stmt) (xs : list T) : list T :=
  match l with
  | Idx i :: q => alter (replace q new) i xs
  | _ => xs
  end.

(** ** Constructs read and built by the helpers *)

(** A decorator construct ([@expression]).  Which decorators apply is decided
    outside this file; here they are only attached. *)
Inductive Decorator : Type :=
| mkDecorator (expression : expr).

(** Modelled from the spec: the property model ([EOProp]) is declared outside
    [transform-helper.js]; the record has the fields the data model lists for
    a legacy property, each read as a plain field.  [callExprArgs] is the
    argument list of the original call (empty when there is none).  The
    nodes of the call arguments belong to the tree of the property, so a
    change made in place to one of them may show in [value] too (when the
    value is the call): how the value reads after such a change is asked of
    the adapter, [reread_value] below.  No helper assigns a field of the
    property itself. *)
Module EOProp.
Record t : Type := mk {
  key : Key;
  value : expr;
  kind : string;
  type : string;
  computed : bool;
  name : string;
  comments : list Comment;
  callExprArgs : list expr;
  isClassDecorator : bool;
  isCallExpression : bool
}.

Definition with_value (v : expr) (p : t) : t :=
  mk (key p) v (kind p) (type p) (computed p) (name p) (comments p)
     (callExprArgs p) (isClassDecorator p) (isCallExpression p).

Definition with_callExprArgs (args : list expr) (p : t) : t :=
  mk (key p) (value p) (kind p) (type p) (computed p) (name p) (comments p)
     args (isClassDecorator p) (isCallExpression p).
End EOProp.

(** What [createMethodProp] reads of its argument: the argument is an
    [EOProp], an entry of an object expression, or the object literal
    [{ kind, key, value, comments }] built in [createCallExpressionProp]. *)
Module FunctionProp.
Record t : Type := mk {
  kind : string;
  key : Key;
  value : expr;
  comments : list Comment
}.

Definition of_EOProp (p : EOProp.t) : t :=
  mk (EOProp.kind p) (EOProp.key p) (EOProp.value p) (EOProp.comments p).

Definition of_Property (p : prop) : t :=
  match p with
  | Property k key v cs => mk k key v cs
  end.
End FunctionProp.

Module MethodDefinition.
Record t : Type := mk {
  kind : string;
  key : Key;
  value : expr;
  comments : list Comment;
  decorators : list Decorator
}.
End MethodDefinition.

Module ClassProperty.
Record t : Type := mk {
  key : Key;
  value : option expr;
  computed : bool;
  comments : list Comment;
  decorators : list Decorator
}.
End ClassProperty.

(** A member of a class body. *)
Inductive ClassMember : Type :=
| Method (m : MethodDefinition.t)
| Field (f : ClassProperty.t).

Module ClassDeclaration.
Record t : Type := mk {
  id : option expr;
  body : list ClassMember;
  superClass : option expr;
  decorators : list Decorator
}.
End ClassDeclaration.

(** ** Exceptions *)

(** A helper either returns or throws.  The helpers raise a [TypeError]
    themselves when they read or assign a property of [undefined]; a builder
    that refuses its arguments raises an [Error]. *)
Inductive result (A : Type) : Type :=
| Ok (a : A)
| Throw (error : string).
Arguments Ok {A} a.
Arguments Throw {A} error.

#[global] Instance result_ret : MRet result := fun A a => Ok a.
#[global] Instance result_bind : MBind result := fun A B f m =>
  match m with
  | Ok a => f a
  | Throw e => Throw e
  end.

Definition TypeError {A : Type} : result A := Throw "TypeError".
Definition BuilderError {A : Type} : result A := Throw "Error".

(** [array.map(f)] for an [f] that may throw: the elements are visited in
    order and the first exception ends the loop. *)
Fixpoint map_result {A B : Type} (f : A -> result B) (l : list A) : result (list B) :=
  match l with
  | [] => Ok []
  | x :: l' => y ← f x; ys ← map_result f l'; Ok (y :: ys)
  end.

(** [array.forEach(f)] with a loop state, for an [f] that may throw. *)
Fixpoint forEach_result {S A : Type} (f : S -> A -> result S) (l : list A) (s : S)
  : result S :=
  match l with
  | [] => Ok s
  | x :: l' => s' ← f s x; forEach_result f l' s'
  end.

(** ** Builders *)

(** The builders of the jscodeshift API ([j.identifier], [j.callExpression],
    [j.classProperty], ...) are the constructors above; a builder leaves the
    fields it is not given at their default (no comments, no decorators) and
    keeps the nodes and arrays it is given, without copying them.  A builder
    checks its arguments against the grammar; the sorts of the tree rule out
    every refusal but those of [j.methodDefinition], whose kind is a string
    and whose value is an expression here. *)

(** The kinds [j.methodDefinition] accepts. *)
Definition is_method_kind (kind : string) : bool :=
  existsb (String.eqb kind) ["constructor"; "method"; "get"; "set"].

(** The values [j.methodDefinition] accepts: functions. *)
Definition is_function (value : expr) : bool :=
  match value with
  | FunctionExpression _ _ _ => true
  | _ => false
  end.

(** [j.methodDefinition(kind, key, value)]: it throws unless the kind is one
    of the four it knows and the value is a function. *)
Definition methodDefinition (kind : string) (key : Key) (value : expr)
  : result MethodDefinition.t :=
  if is_method_kind kind && is_function value
  then Ok (MethodDefinition.mk kind key value [] [])
  else BuilderError.

(** [j.classProperty(key, value, null)]. *)
Definition classProperty (key : Key) (value : option expr) : ClassProperty.t :=
  ClassProperty.mk key value false [] [].

(** ** Comments and decorators *)

(** Nodes whose [comments] can be read, and nodes whose [comments] can be
    assigned. *)
Class HasComments (T : Type) := get_comments : T -> list Comment.
Class SetComments (T : Type) := set_comments : list Comment -> T -> T.
Class SetDecorators (T : Type) := set_decorators : list Decorator -> T -> T.

#[global] Instance EOProp_comments : HasComments EOProp.t := EOProp.comments.
#[global] Instance FunctionProp_comments : HasComments FunctionProp.t :=
  FunctionProp.comments.

#[global] Instance stmt_set_comments : SetComments stmt := fun cs s =>
  match s with
  | ExpressionStatement e _ => ExpressionStatement e cs
  | _ => s
  end.
#[global] Instance method_set_comments : SetComments MethodDefinition.t := fun cs m =>
  MethodDefinition.mk (MethodDefinition.kind m) (MethodDefinition.key m)
    (MethodDefinition.value m) cs (MethodDefinition.decorators m).
#[global] Instance field_set_comments : SetComments ClassProperty.t := fun cs f =>
  ClassProperty.mk (ClassProperty.key f) (ClassProperty.value f)
    (ClassProperty.computed f) cs (ClassProperty.decorators f).

#[global] Instance method_set_decorators : SetDecorators MethodDefinition.t := fun ds m =>
  MethodDefinition.mk (MethodDefinition.kind m) (MethodDefinition.key m)
    (MethodDefinition.value m) (MethodDefinition.comments m) ds.
#[global] Instance field_set_decorators : SetDecorators ClassProperty.t := fun ds f =>
  ClassProperty.mk (ClassProperty.key f) (ClassProperty.value f)
    (ClassProperty.computed f) (ClassProperty.comments f) ds.
#[global] Instance class_set_decorators : SetDecorators ClassDeclaration.t := fun ds c =>
  ClassDeclaration.mk (ClassDeclaration.id c) (ClassDeclaration.body c)
    (ClassDeclaration.superClass c) ds.

(** Copy comments [from] => [to]. *)
Definition withComments {To From : Type} `{!SetComments To} `{!HasComments From}
    (to : To) (from : From) : To :=
  set_comments (get_comments from) to.

(** Modelled from the spec: [withDecorators] lives in [./decorator-helper],
    which is not among the sources.  Decorators, if provided, are attached in
    the given order; with none provided the node is returned as it is. *)
Definition withDecorators {To : Type} `{!SetDecorators To}
    (to : To) (decorators : list Decorator) : To :=
  match decorators with
  | [] => to
  | _ => set_decorators decorators to
  end.

(** ** External collaborators *)

(** The functions imported from [./util] and [./decorator-helper] whose
    results the helpers only pass on: the policy deciding whether a field
    keeps its initializer, the name of an object entry, and the decorators of
    a class, of an instance property and of an action.  With them comes the
    adapter of the property model: [reread_value lastArg' prop] is the
    [value] of the property [prop] as it reads once the node in the last slot
    of its call arguments has been changed in place into [lastArg']. *)
Class Collaborators : Type := {
  shouldSetValue : EOProp.t -> bool;
  getPropName : prop -> string;
  createClassDecorator : EOProp.t -> Decorator;
  createInstancePropDecorators : EOProp.t -> list Decorator;
  createActionDecorators : list Decorator;
  reread_value : expr -> EOProp.t -> expr
}.

(** ** The helpers of [transform-helper.js] *)

(** Transform instance properties to member expressions:
    [prop: value] becomes [this.prop = value]. *)
Definition instancePropsToExpressions (instanceProps : list EOProp.t) : list stmt :=
  map (fun instanceProp =>
         withComments
           (ExpressionStatement
              (AssignmentExpression "="
                 (memberExpression ThisExpression (key_node (EOProp.key instanceProp)))
                 (EOProp.value instanceProp))
              [])
           instanceProp)
      instanceProps.

(** Creates an empty [super()] expression. *)
Definition createSuperExpressionStatement : stmt :=
  ExpressionStatement (CallExpression Super []) [].

(** The filter object handed to [find]: an expression statement whose
    expression is a call, whose callee is a member expression, whose property
    is the identifier [_super].  Nothing is asked of the receiver, nor of the
    [computed] flag. *)
Definition superExprFilter (s : stmt) : bool :=
  match s with
  | ExpressionStatement (CallExpression (MemberExpression _ (Identifier name) _) _) _ =>
      String.eqb name "_super"
  | _ => false
  end.

(** [get(superExpr, "value.expression.arguments")]: modelled from the spec,
    [get] of [./util] reads a path of properties and yields [undefined] where
    the path ends early. *)
Definition get_value_expression_arguments (superExpr : NodePath) : option (list expr) :=
  match path_value superExpr with
  | ExpressionStatement (CallExpression _ args) _ => Some args
  | _ => None
  end.

(** The paths found in a decorator. *)
Definition find_decorator (filter : stmt -> bool) (d : Decorator) : list NodePath :=
  match d with
  | mkDecorator e => under (Fld f_expression) (find_expr filter e)
  end.

(** [replaceWith] seen from a decorator. *)
Definition replace_decorator (l : list step) (new : stmt) (d : Decorator) : Decorator :=
  match l, d with
  | Fld f_expression :: q, mkDecorator e => mkDecorator (replace_expr q new e)
  | _, _ => d
  end.

(** The collection [j(methodDefinition)] and its paths: a method definition
    is traversed through its [value] and then through its [decorators]; its
    key is a leaf. *)
Definition find_method (filter : stmt -> bool) (m : MethodDefinition.t) : list NodePath :=
  under (Fld f_value) (find_expr filter (MethodDefinition.value m))
  ++ under (Fld f_decorators)
       (each (find_decorator filter) 0 (MethodDefinition.decorators m)).

(** [replaceWith] seen from the method definition. *)
Definition replace_method (l : list step) (new : stmt) (m : MethodDefinition.t)
  : MethodDefinition.t :=
  match l with
  | Fld f_value :: q =>
      MethodDefinition.mk (MethodDefinition.kind m) (MethodDefinition.key m)
        (replace_expr q new (MethodDefinition.value m))
        (MethodDefinition.comments m) (MethodDefinition.decorators m)
  | Fld f_decorators :: q =>
      MethodDefinition.mk (MethodDefinition.kind m) (MethodDefinition.key m)
        (MethodDefinition.value m) (MethodDefinition.comments m)
        (replace_in replace_decorator q new (MethodDefinition.decorators m))
  | _ => m
  end.

(** The statement [super.<key>(<args>)] built for one match. *)
Definition superMethodCall (key : Key) (superExpr : NodePath) : stmt :=
  let superMethodArgs := default [] (get_value_expression_arguments superExpr) in
  ExpressionStatement
    (CallExpression (memberExpression Super (key_node key)) superMethodArgs)
    [].

(** The loop [superExprs.forEach(superExpr => ...)]: each path found is
    replaced, in the order of the collection, by the call built from the node
    the path holds.  A path comes before the paths found below it, so the
    node it holds is still as [find] saw it when its turn comes; the call
    built from it keeps its array of arguments, and the paths found in those
    arguments go on leading into the tree, now through the new statement.
    [replace] is [replaceWith] for the sort of the root. *)
Definition superExprs_forEach {T : Type} (replace : list step -> stmt -> T -> T)
    (key : Key) (superExprs : list NodePath) (root : T) : T :=
  foldl (fun root superExpr =>
           replace (path_loc superExpr) (superMethodCall key superExpr) root)
        root superExprs.

(** Replace instances of [this._super(...arguments)] by
    [super.methodName(...arguments)].  The method definition is mutated in
    place and returned: the result is the state of the argument (and of the
    function node it holds) after the call. *)
Definition replaceSuperExpressions (methodDefinition : MethodDefinition.t)
  : MethodDefinition.t :=
  let superExprs := find_method superExprFilter methodDefinition in
  if bool_decide (length superExprs = 0) then methodDefinition
  else
    superExprs_forEach replace_method (MethodDefinition.key methodDefinition)
      superExprs methodDefinition.

(** Transform functions to class methods: [{ foo: function() { } }] becomes
    [{ foo() { } }].  The builder is called first and may refuse the kind or
    the value; the [value] of the method is the very node
    [functionProp.value], rewritten in place by [replaceSuperExpressions]. *)
Definition createMethodProp (functionProp : FunctionProp.t) (decorators : list Decorator)
  : result MethodDefinition.t :=
  let propKind :=
    if String.eqb (FunctionProp.kind functionProp) "init" then "method"
    else FunctionProp.kind functionProp in
  m ← methodDefinition propKind (FunctionProp.key functionProp)
         (FunctionProp.value functionProp);
  Ok (withDecorators (withComments (replaceSuperExpressions m) functionProp) decorators).

(** Create a constructor method. *)
Definition createConstructor (instanceProps : list EOProp.t)
  : result (list MethodDefinition.t) :=
  if bool_decide (length instanceProps = 0) then Ok []
  else
    m ← methodDefinition "constructor" (KeyIdentifier "constructor")
           (FunctionExpression None []
              (BlockStatement
                 ([createSuperExpressionStatement]
                  ++ instancePropsToExpressions instanceProps)));
    Ok [m].

(** Create identifier for super class with mixins. *)
Definition createSuperClassExpression (superClassName : string) (mixins : list expr)
  : expr :=
  if bool_decide (0 < length mixins) then
    CallExpression
      (memberExpression (Identifier superClassName) (Identifier "extend"))
      mixins
  else Identifier superClassName.

(** What a helper has changed in place in the property it was given: nothing,
    or the node in the last slot of the call arguments, which is now
    [lastArg']. *)
Inductive Change : Type :=
| Unchanged
| LastArgChanged (lastArg' : expr).

Section Helpers.
Context `{Collaborators}.

(** The property as it reads after a change: the changed node is in the
    last slot of the call arguments, the value is the one the adapter reads,
    and the fields of the property itself are as they were. *)
Definition left_by (change : Change) (prop : EOProp.t) : EOProp.t :=
  match change with
  | Unchanged => prop
  | LastArgChanged lastArg' =>
      EOProp.mk (EOProp.key prop) (reread_value lastArg' prop) (EOProp.kind prop)
        (EOProp.type prop) (EOProp.computed prop) (EOProp.name prop)
        (EOProp.comments prop)
        (removelast (EOProp.callExprArgs prop) ++ [lastArg'])
        (EOProp.isClassDecorator prop) (EOProp.isCallExpression prop)
  end.

(** Create the class property from passed instance property. *)
Definition createClassProp (instanceProp : EOProp.t) : ClassProperty.t :=
  let decorators := createInstancePropDecorators instanceProp in
  let classProp :=
    withDecorators
      (withComments
         (classProperty (EOProp.key instanceProp)
            (if shouldSetValue instanceProp then Some (EOProp.value instanceProp)
             else None))
         instanceProp)
      decorators in
  ClassProperty.mk (ClassProperty.key classProp) (ClassProperty.value classProp)
    (EOProp.computed instanceProp)
    (ClassProperty.comments classProp) (ClassProperty.decorators classProp).

(** Create action decorators: every entry of the [actions] hash becomes a
    method carrying the action decorators.  [get(actionsProp,
    "value.properties")] is [undefined] unless the value is an object
    expression, and [undefined.map] throws.  The second component is the
    [actions] property after the call: the entries are the same nodes, with
    their function values rewritten in place. *)
Definition createActionDecoratedProps (actionsProp : EOProp.t)
  : result (list MethodDefinition.t * EOProp.t) :=
  match EOProp.value actionsProp with
  | ObjectExpression actionProps =>
      let actionDecorators := createActionDecorators in
      methods ←
        map_result (fun actionProp =>
                      createMethodProp (FunctionProp.of_Property actionProp)
                        actionDecorators)
                   actionProps;
      let actionProps' :=
        zip_with (fun actionProp m =>
                    match actionProp with
                    | Property k key _ cs => Property k key (MethodDefinition.value m) cs
                    end)
                 actionProps methods in
      Ok (methods, EOProp.with_value (ObjectExpression actionProps') actionsProp)
  | _ => TypeError
  end.

(** The body of the loop over the entries of the object expression in
    [createCallExpressionProp]: the entry's [kind] and [key] are overwritten,
    the first parameter of its function is removed ([params.shift()], which
    throws when the value has no [params]), and the method is created from
    the entry so changed.  The second component is the entry after the
    step. *)
Definition callExprFunction_to_method (callExprProp : EOProp.t) (callExprFunction : prop)
  : result (MethodDefinition.t * prop) :=
  match callExprFunction with
  | Property _ _ v cs =>
      let kind' := getPropName callExprFunction in
      let key' := EOProp.key callExprProp in
      match v with
      | FunctionExpression id params body =>
          let v' := FunctionExpression id (tail params) body in
          m ← createMethodProp (FunctionProp.of_Property (Property kind' key' v' cs)) [];
          Ok (m, Property kind' key' (MethodDefinition.value m) cs)
      | _ => TypeError
      end
  end.

(** Iterate and convert the computed properties to class methods.  The
    branch is chosen by the type of the last call argument
    ([get(callExprLastArg, "type")], [undefined] when there is no argument;
    [slice(0)] copies the array before [pop()], so the array itself is never
    changed, only the node in its last slot).  In the branch of the object
    expression, [callExprMethods[0]] is [undefined] when there is no entry,
    and [withComments] then throws on the assignment to its [comments]; the
    instance decorators are asked for after the entries have been changed, of
    the property as it then reads.  The second component says what the call
    has changed in place. *)
Definition createCallExpressionProp (callExprProp : EOProp.t)
  : result (list ClassMember * Change) :=
  let callExprArgs := EOProp.callExprArgs callExprProp in
  let callExprLastArg := list.last callExprArgs in
  match callExprLastArg with
  | Some (FunctionExpression _ _ _ as fn) =>
      let functionExpr :=
        FunctionProp.mk (EOProp.kind callExprProp) (EOProp.key callExprProp) fn
          (EOProp.comments callExprProp) in
      m ← createMethodProp functionExpr (createInstancePropDecorators callExprProp);
      Ok ([Method m], LastArgChanged (MethodDefinition.value m))
  | Some (ObjectExpression properties) =>
      steps ← map_result (callExprFunction_to_method callExprProp) properties;
      let callExprMethods := steps.*1 in
      let change := LastArgChanged (ObjectExpression (steps.*2)) in
      match callExprMethods with
      | first :: rest =>
          Ok (Method (withDecorators (withComments first callExprProp)
                        (createInstancePropDecorators (left_by change callExprProp)))
                :: map Method rest,
              change)
      | [] => TypeError
      end
  | _ => Ok ([Field (createClassProp callExprProp)], Unchanged)
  end.

(** The state of the loop in [createClass]: the class body and the class
    decorators collected so far, and the properties already visited, as the
    loop left them. *)
Record ClassLoop : Type := mkLoop {
  classBody : list ClassMember;
  classDecorators : list Decorator;
  visited : list EOProp.t
}.

(** The body of the loop [instanceProps.forEach(prop => ...)]. *)
Definition createClass_visit (st : ClassLoop) (prop : EOProp.t) : result ClassLoop :=
  if EOProp.isClassDecorator prop then
    Ok (mkLoop (classBody st) (classDecorators st ++ [createClassDecorator prop])
          (visited st ++ [prop]))
  else if String.eqb (EOProp.type prop) "FunctionExpression" then
    m ← createMethodProp (FunctionProp.of_EOProp prop) [];
    Ok (mkLoop (classBody st ++ [Method m]) (classDecorators st)
          (visited st ++ [EOProp.with_value (MethodDefinition.value m) prop]))
  else if EOProp.isCallExpression prop then
    '(members, change) ← createCallExpressionProp prop;
    Ok (mkLoop (classBody st ++ members) (classDecorators st)
          (visited st ++ [left_by change prop]))
  else if String.eqb (EOProp.name prop) "actions" then
    '(methods, prop') ← createActionDecoratedProps prop;
    Ok (mkLoop (classBody st ++ map Method methods) (classDecorators st)
          (visited st ++ [prop']))
  else
    Ok (mkLoop (classBody st ++ [Field (createClassProp prop)]) (classDecorators st)
          (visited st ++ [prop])).

(** Create the class.  The second component is the list of instance
    properties after the call. *)
Definition createClass (className : string) (instanceProps : list EOProp.t)
    (superClassName : string) (mixins : list expr)
  : result (ClassDeclaration.t * list EOProp.t) :=
  st ← forEach_result createClass_visit instanceProps (mkLoop [] [] []);
  Ok (withDecorators
        (ClassDeclaration.mk
           (if String.eqb className "" then None else Some (Identifier className))
           (classBody st)
           (Some (createSuperClassExpression superClassName mixins))
           [])
        (classDecorators st),
      visited st).
End Helpers.


(** ** The delegation rewriting, stated on the structure of the tree

    What [replaceSuperExpressions] computes, as a function defined by
    recursion on the tree: every expression statement that is a call of a
    property [_super] is replaced by an expression statement calling
    [super.<methodKey>] with the same arguments, in which the rewriting goes
    on (the callee of the replaced call is dropped with what it holds);
    every other node keeps its shape and is rewritten inside. *)
Section Delegation.
Variable methodKey : Key.

Fixpoint delegate_expr (e : expr) : expr :=
  match e with
  | Identifier _ | Literal _ | ThisExpression | Super => e
  | MemberExpression o p c => MemberExpression (delegate_expr o) (delegate_expr p) c
  | CallExpression c args => CallExpression (delegate_expr c) (map delegate_expr args)
  | AssignmentExpression op l r => AssignmentExpression op (delegate_expr l) (delegate_expr r)
  | FunctionExpression id ps b => FunctionExpression id (map delegate_expr ps) (delegate_stmt b)
  | ObjectExpression props => ObjectExpression (map delegate_prop props)
  end
with delegate_prop (p : prop) : prop :=
  match p with
  | Property k key v cs => Property k key (delegate_expr v) cs
  end
with delegate_stmt (s : stmt) : stmt :=
  match s with
  | ExpressionStatement e cs =>
      match e with
      | CallExpression (MemberExpression _ (Identifier name) _) args =>
          if String.eqb name "_super" then
            ExpressionStatement
              (CallExpression (memberExpression Super (key_node methodKey))
                 (map delegate_expr args))
              []
          else ExpressionStatement (delegate_expr e) cs
      | _ => ExpressionStatement (delegate_expr e) cs
      end
  | BlockStatement b => BlockStatement (map delegate_stmt b)
  | IfStatement t c a =>
      IfStatement (delegate_expr t) (delegate_stmt c)
        (match a with Some a' => Some (delegate_stmt a') | None => None end)
  | WhileStatement t b => WhileStatement (delegate_expr t) (delegate_stmt b)
  | ReturnStatement a =>
      ReturnStatement (match a with Some a' => Some (delegate_expr a') | None => None end)
  end.

Definition delegate_decorator (d : Decorator) : Decorator :=
  match d with
  | mkDecorator e => mkDecorator (delegate_expr e)
  end.
End Delegation.

(** The shape the prose of the contract names: the call [this._super(...)],
    with [this] as the receiver. *)
Definition is_this_super_call (s : stmt) : bool :=
  match s with
  | ExpressionStatement
      (CallExpression (MemberExpression ThisExpression (Identifier name) _) _) _ =>
      String.eqb name "_super"
  | _ => false
  end.

(** ** The classification of the class assembler, rule by rule *)

(** The five rules of the dispatch, in their order of precedence. *)
Inductive Rule : Type :=
| ClassDecoratorRule
| MethodRule
| CallExpressionRule
| ActionsRule
| FieldRule.

(** The first rule that matches a property. *)
Definition classify (prop : EOProp.t) : Rule :=
  if EOProp.isClassDecorator prop then ClassDecoratorRule
  else if String.eqb (EOProp.type prop) "FunctionExpression" then MethodRule
  else if EOProp.isCallExpression prop then CallExpressionRule
  else if String.eqb (EOProp.name prop) "actions" then ActionsRule
  else FieldRule.

(** The kind of the method made of a property of kind [kind]. *)
Definition method_kind (kind : string) : string :=
  if String.eqb kind "init" then "method" else kind.

(** The function properties of which a method can be built: the kind is
    [init] or one the builder accepts, and the value is a function. *)
Definition buildable (functionProp : FunctionProp.t) : bool :=
  is_method_kind (method_kind (FunctionProp.kind functionProp))
  && is_function (FunctionProp.value functionProp).

Section Assembly.
Context `{Collaborators}.

(** The members one property contributes, by the rule that matches it. *)
Definition members_of (prop : EOProp.t) : result (list ClassMember) :=
  match classify prop with
  | ClassDecoratorRule => Ok []
  | MethodRule =>
      m ← createMethodProp (FunctionProp.of_EOProp prop) []; Ok [Method m]
  | CallExpressionRule =>
      '(members, _) ← createCallExpressionProp prop; Ok members
  | ActionsRule =>
      '(methods, _) ← createActionDecoratedProps prop; Ok (map Method methods)
  | FieldRule => Ok [Field (createClassProp prop)]
  end.

(** The class decorators one property contributes. *)
Definition class_decorators_of (prop : EOProp.t) : list Decorator :=
  match classify prop with
  | ClassDecoratorRule => [createClassDecorator prop]
  | _ => []
  end.

(** An entry of an object expression after the call-expression handler has
    turned it into a method of the property with key [outerKey]. *)
Definition entry_after (outerKey : Key) (entry : prop) : prop :=
  match entry with
  | Property _ _ v cs =>
      Property (getPropName entry) outerKey
        (delegate_expr outerKey
           (match v with
            | FunctionExpression id params body => FunctionExpression id (tail params) body
            | _ => v
            end))
        cs
  end.

(** The method the call-expression handler makes of an entry: it has the key
    of the property, the kind named by the entry, and the function of the
    entry without its first parameter. *)
Definition entry_method (outerKey : Key) (entry : prop) : MethodDefinition.t :=
  match entry_after outerKey entry with
  | Property k key v cs => MethodDefinition.mk (method_kind k) key v cs []
  end.

(** An entry with a function expression as its value. *)
Definition has_params (entry : prop) : bool :=
  match entry with
  | Property _ _ (FunctionExpression _ _ _) _ => true
  | _ => false
  end.

(** An entry of which the call-expression handler can make a method: its
    value is a function expression, and the kind named for it is [init] or
    one the builder accepts. *)
Definition entry_usable (entry : prop) : bool :=
  has_params entry && is_method_kind (method_kind (getPropName entry)).

(** An entry of the [actions] hash after it has been turned into a method. *)
Definition action_after (entry : prop) : prop :=
  match entry with
  | Property k key v cs => Property k key (delegate_expr key v) cs
  end.

(** An entry of the [actions] hash of which a method can be built. *)
Definition action_usable (entry : prop) : bool :=
  buildable (FunctionProp.of_Property entry).

(** The method made of an entry of the [actions] hash. *)
Definition action_method (entry : prop) : MethodDefinition.t :=
  match entry with
  | Property k key v cs =>
      MethodDefinition.mk (method_kind k) key (delegate_expr key v) cs
        createActionDecorators
  end.

(** What the call-expression handler changes in a property. *)
Definition call_change (prop : EOProp.t) : Change :=
  match list.last (EOProp.callExprArgs prop) with
  | Some (FunctionExpression _ _ _ as fn) =>
      LastArgChanged (delegate_expr (EOProp.key prop) fn)
  | Some (ObjectExpression entries) =>
      LastArgChanged (ObjectExpression (map (entry_after (EOProp.key prop)) entries))
  | _ => Unchanged
  end.

(** A property as a successful run of the class assembler leaves it. *)
Definition prop_after (prop : EOProp.t) : EOProp.t :=
  match classify prop with
  | ClassDecoratorRule | FieldRule => prop
  | MethodRule =>
      EOProp.with_value (delegate_expr (EOProp.key prop) (EOProp.value prop)) prop
  | CallExpressionRule => left_by (call_change prop) prop
  | ActionsRule =>
      match EOProp.value prop with
      | ObjectExpression entries =>
          EOProp.with_value (ObjectExpression (map action_after entries)) prop
      | _ => prop
      end
  end.

(** The fields of a property that no helper ever assigns. *)
Definition same_description (p p' : EOProp.t) : Prop :=
  EOProp.key p' = EOProp.key p
  /\ EOProp.kind p' = EOProp.kind p
  /\ EOProp.type p' = EOProp.type p
  /\ EOProp.computed p' = EOProp.computed p
  /\ EOProp.name p' = EOProp.name p
  /\ EOProp.comments p' = EOProp.comments p
  /\ EOProp.isClassDecorator p' = EOProp.isClassDecorator p
  /\ EOProp.isCallExpression p' = EOProp.isCallExpression p
  /\ length (EOProp.callExprArgs p') = length (EOProp.callExprArgs p).

(** The exception of the loop over the entries of an object expression: at
    the first entry without parameters a [TypeError], at the first entry
    whose kind the builder refuses an [Error]. *)
Fixpoint entries_error (entries : list prop) : option string :=
  match entries with
  | [] => None
  | entry :: rest =>
      if negb (has_params entry) then Some "TypeError"
      else if negb (is_method_kind (method_kind (getPropName entry))) then Some "Error"
      else entries_error rest
  end.

(** The exception one turn of the loop of [createClass] ends with, if any. *)
Definition visit_error (prop : EOProp.t) : option string :=
  match classify prop with
  | MethodRule =>
      if buildable (FunctionProp.of_EOProp prop) then None else Some "Error"
  | CallExpressionRule =>
      match list.last (EOProp.callExprArgs prop) with
      | Some (FunctionExpression _ _ _) =>
          if is_method_kind (method_kind (EOProp.kind prop)) then None else Some "Error"
      | Some (ObjectExpression entries) =>
          match entries_error entries, entries with
          | Some e, _ => Some e
          | None, [] => Some "TypeError"
          | None, _ :: _ => None
          end
      | _ => None
      end
  | ActionsRule =>
      match EOProp.value prop with
      | ObjectExpression entries =>
          if forallb action_usable entries then None else Some "Error"
      | _ => Some "TypeError"
      end
  | _ => None
  end.

(** The exception the loop of [createClass] ends with, if any: the one of
    the first property that has one. *)
Fixpoint first_error (props : list EOProp.t) : option string :=
  match props with
  | [] => None
  | prop :: rest =>
      match visit_error prop with
      | Some e => Some e
      | None => first_error rest
      end
  end.
End Assembly.

(** Whether the last call argument is of a shape the call-expression handler
    knows: a function expression or an object expression. *)
Definition lastArg_recognized (callExprProp : EOProp.t) : bool :=
  match list.last (EOProp.callExprArgs callExprProp) with
  | Some (FunctionExpression _ _ _) | Some (ObjectExpression _) => true
  | _ => false
  end.

(** Whether a property is handled by the call-expression handler. *)
Definition is_call_rule (prop : EOProp.t) : bool :=
  match classify prop with
  | CallExpressionRule => true
  | _ => false
  end.

(** The statement [this.<key> = <value>] of a constructor, with the comments
    of the property it comes from. *)
Definition assignment_of (instanceProp : EOProp.t) : stmt :=
  ExpressionStatement
    (AssignmentExpression "="
       (memberExpression ThisExpression (key_node (EOProp.key instanceProp)))
       (EOProp.value instanceProp))
    (EOProp.comments instanceProp).

(** The superclass expression as the prose describes it, [None] standing for
    an absent superclass: with no mixin the bare name, absent when the name is
    empty; with mixins the call of [extend]. *)
Definition superclassExpr_described (name : string) (mixins : list expr) : option expr :=
  match mixins with
  | [] => if String.eqb name "" then None else Some (Identifier name)
  | _ =>
      Some (CallExpression
              (MemberExpression (Identifier name) (Identifier "extend") false) mixins)
  end.

(** ** Sample inputs *)

Definition entry_name (p : prop) : string :=
  match p with
  | Property _ (KeyIdentifier n) _ _ => n
  | Property _ (KeyLiteral r) _ _ => r
  end.

(** The adapter of the samples, whose call-expression properties have the
    call itself as their value: the changed node shows in the arguments of
    the value. *)
Definition reread_call (lastArg' : expr) (p : EOProp.t) : expr :=
  match EOProp.value p with
  | CallExpression callee args => CallExpression callee (removelast args ++ [lastArg'])
  | v => v
  end.

(** Two sets of collaborators: one that keeps every initializer and derives
    no instance decorators, one that drops every initializer (as for a
    property that a decorator initializes). *)
Definition plainCollaborators : Collaborators := {|
  shouldSetValue := fun _ => true;
  getPropName := entry_name;
  createClassDecorator := fun p => mkDecorator (Identifier (EOProp.name p));
  createInstancePropDecorators := fun _ => [];
  createActionDecorators := [mkDecorator (Identifier "action")];
  reread_value := reread_call
|}.

Definition decoratingCollaborators : Collaborators := {|
  shouldSetValue := fun _ => false;
  getPropName := entry_name;
  createClassDecorator := fun p => mkDecorator (Identifier (EOProp.name p));
  createInstancePropDecorators := fun p => [mkDecorator (EOProp.value p)];
  createActionDecorators := [mkDecorator (Identifier "action")];
  reread_value := reread_call
|}.

(** [function (<params>) { <body> }]. *)
Definition fn (params : list string) (body : list stmt) : expr :=
  FunctionExpression None (map Identifier params) (BlockStatement body).

(** [<receiver>._super(<args>);] *)
Definition super_call (receiver : expr) (args : list expr) : stmt :=
  ExpressionStatement
    (CallExpression (MemberExpression receiver (Identifier "_super") false) args) [].

(** A property [name: value] with the given type tag and flags. *)
Definition sample_prop (name : string) (value : expr) (comments : list Comment)
    (callExprArgs : list expr) (isClassDecorator isCallExpression : bool) : EOProp.t :=
  EOProp.mk (KeyIdentifier name) value "init" (expr_type value) false name comments
    callExprArgs isClassDecorator isCallExpression.

(** [fullName: computed({ get(key) { ... }, set(key, value) { ... } })]. *)
Definition fullName_args : list expr :=
  [ ObjectExpression
      [ Property "init" (KeyIdentifier "get") (fn ["key"] [ReturnStatement None]) ["getter"];
        Property "init" (KeyIdentifier "set") (fn ["key"; "value"] []) [] ] ].

Definition fullName : EOProp.t :=
  sample_prop "fullName" (CallExpression (Identifier "computed") fullName_args)
    ["full name"] fullName_args false true.

(** [cache: computed({})]. *)
Definition cache : EOProp.t :=
  sample_prop "cache" (CallExpression (Identifier "computed") [ObjectExpression []])
    [] [ObjectExpression []] false true.

(** [store: service()]. *)
Definition store : EOProp.t :=
  sample_prop "store" (CallExpression (Identifier "service") []) [] [] false true.

(** [actions: { save() { this._super(); } }], with a comment on [actions]. *)
Definition actions : EOProp.t :=
  sample_prop "actions"
    (ObjectExpression
       [ Property "init" (KeyIdentifier "save") (fn [] [super_call ThisExpression []]) [] ])
    ["handlers"] [] false false.

(** [actions: { limit: 1 }]. *)
Definition settings : EOProp.t :=
  sample_prop "actions"
    (ObjectExpression [ Property "init" (KeyIdentifier "limit") (Literal "1") [] ])
    [] [] false false.

(** [init() { other._super(function () { this._super(); }); }]. *)
Definition init_method : MethodDefinition.t :=
  MethodDefinition.mk "method" (KeyIdentifier "init")
    (fn [] [ super_call (Identifier "other") [fn [] [super_call ThisExpression []]] ])
    [] [].



(** [init: function () { this._super(); }]. *)
Definition init_prop : EOProp.t :=
  sample_prop "init" (fn [] [super_call ThisExpression []]) ["set up"] [] false false.

(** [classNames: ["person"]], which the adapter flags as a class decorator. *)
Definition classNames : EOProp.t :=
  sample_prop "classNames" (Literal "person") [] [] true false.

(** ["max-size": 10], a property with a literal key. *)
Definition maxSize : EOProp.t :=
  EOProp.mk (KeyLiteral "max-size") (Literal "10") "init" "Literal" false "max-size"
    ["limit"] [] false false.


(** * Properties *)

(** ** The loop of [replaceSuperExpressions], sort by sort *)
Section Run.
Variable key : Key.

Abbreviation run r := (superExprs_forEach r key).

Lemma run_app {T} (r : list step -> stmt -> T -> T) ps qs t :
  run r (ps ++ qs) t = run r qs (run r ps t).
Proof. apply foldl_app. Qed.

Lemma run_cons {T} (r : list step -> stmt -> T -> T) p ps t :
  run r (p :: ps) t = run r ps (r (path_loc p) (superMethodCall key p) t).
Proof. done. Qed.

Lemma superMethodCall_call l callee args cs :
  superMethodCall key (mkPath l (ExpressionStatement (CallExpression callee args) cs))
  = ExpressionStatement
      (CallExpression (memberExpression Super (key_node key)) args) [].
Proof. done. Qed.

Lemma under_app s ps qs : under s (ps ++ qs) = under s ps ++ under s qs.
Proof. apply map_app. Qed.

(** Paths below a field act on the node in that field. *)
Lemma run_lift {T U} (rT : list step -> stmt -> T -> T)
    (rU : list step -> stmt -> U -> U) (s : step) (wrap : T -> U) :
  (forall q new x, rU (s :: q) new (wrap x) = wrap (rT q new x)) ->
  forall ps x, run rU (under s ps) (wrap x) = wrap (run rT ps x).
Proof.
  intros Hstep ps. induction ps as [|p ps IH]; intros x; [done|].
  cbn. rewrite Hstep. apply IH.
Qed.

(** The paths found in the elements of an array rewrite each element. *)
Lemma run_each {T} (rT : list step -> stmt -> T -> T) (find : T -> list NodePath)
    (delegate : T -> T) (l : list T) :
  Forall (fun x => run rT (find x) x = delegate x) l ->
  forall pre, run (replace_in rT) (each find (length pre) l) (pre ++ l)
              = pre ++ map delegate l.
Proof.
  induction 1 as [|x l Hx _ IH]; intros pre; [done|].
  cbn [each map]. rewrite run_app.
  rewrite (run_lift rT (replace_in rT) (Idx (length pre)) (fun y => pre ++ y :: l)).
  - rewrite Hx. specialize (IH (pre ++ [delegate x])).
    rewrite length_app, Nat.add_1_r, <- !app_assoc in IH. apply IH.
  - intros q new y. cbn. by rewrite alter_app_r_alt, Nat.sub_diag by lia.
Qed.

Lemma run_each_0 {T} (rT : list step -> stmt -> T -> T) (find : T -> list NodePath)
    (delegate : T -> T) (l : list T) :
  Forall (fun x => run rT (find x) x = delegate x) l ->
  run (replace_in rT) (each find 0 l) l = map delegate l.
Proof. intros Hl. apply (run_each rT find delegate l Hl []). Qed.

Lemma replace_expr_leaf q new e :
  match e with
  | Identifier _ | Literal _ | ThisExpression | Super => True
  | _ => False
  end ->
  replace_expr q new e = e.
Proof. destruct e; try done; intros _; destruct q as [|[[]|]]; done. Qed.

Lemma run_leaf ps e :
  match e with
  | Identifier _ | Literal _ | ThisExpression | Super => True
  | _ => False
  end ->
  run replace_expr ps e = e.
Proof.
  intros He. induction ps as [|p ps IH]; [done|].
  cbn. by rewrite replace_expr_leaf.
Qed.

Abbreviation found_e := (find_expr superExprFilter).
Abbreviation found_p := (find_prop superExprFilter).
Abbreviation found_s := (find_stmt superExprFilter).

Ltac field_step :=
  let q := fresh "q" in
  intros q; intros; try (destruct q as [|[|] ?]); reflexivity.

(** The loop over the paths found in a tree computes the rewriting of the
    tree, for each sort of root. *)
Lemma run_delegate :
  (forall e, run replace_expr (found_e e) e = delegate_expr key e
             /\ match e with
                | CallExpression _ args =>
                    Forall (fun x => run replace_expr (found_e x) x = delegate_expr key x) args
                | _ => True
                end)
  /\ (forall p, run replace_prop (found_p p) p = delegate_prop key p)
  /\ (forall s, run replace_stmt (found_s s) s = delegate_stmt key s).
Proof.
  apply ast_ind.
  - done.
  - done.
  - done.
  - done.
  - intros o p c [IHo _] [IHp _]. split; [|done]. cbn [find_expr delegate_expr].
    rewrite run_app.
    rewrite (run_lift replace_expr replace_expr (Fld f_object)
               (fun x => MemberExpression x p c)) by field_step.
    rewrite (run_lift replace_expr replace_expr (Fld f_property)
               (fun x => MemberExpression _ x c)) by field_step.
    by rewrite IHo, IHp.
  - intros c args [IHc _] IHargs.
    assert (Forall (fun x => run replace_expr (found_e x) x = delegate_expr key x) args)
      as Hargs by (eapply List.Forall_impl; [|exact IHargs]; by intros x [Hx _]).
    split; [|done]. cbn [find_expr delegate_expr].
    rewrite run_app.
    rewrite (run_lift replace_expr replace_expr (Fld f_callee)
               (fun x => CallExpression x args)) by field_step.
    rewrite (run_lift (replace_in replace_expr) replace_expr (Fld f_arguments)
               (fun xs => CallExpression _ xs)) by field_step.
    by rewrite IHc, (run_each_0 replace_expr found_e (delegate_expr key)).
  - intros op l r [IHl _] [IHr _]. split; [|done]. cbn [find_expr delegate_expr].
    rewrite run_app.
    rewrite (run_lift replace_expr replace_expr (Fld f_left)
               (fun x => AssignmentExpression op x r)) by field_step.
    rewrite (run_lift replace_expr replace_expr (Fld f_right)
               (fun x => AssignmentExpression op _ x)) by field_step.
    by rewrite IHl, IHr.
  - intros id ps b IHps IHb.
    assert (Forall (fun x => run replace_expr (found_e x) x = delegate_expr key x) ps)
      as Hps by (eapply List.Forall_impl; [|exact IHps]; by intros x [Hx _]).
    split; [|done]. cbn [find_expr delegate_expr].
    rewrite run_app.
    rewrite (run_lift (replace_in replace_expr) replace_expr (Fld f_params)
               (fun xs => FunctionExpression id xs b)) by field_step.
    rewrite (run_lift replace_stmt replace_expr (Fld f_body)
               (fun x => FunctionExpression id _ x)) by field_step.
    by rewrite IHb, (run_each_0 replace_expr found_e (delegate_expr key)).
  - intros props IHprops. split; [|done]. cbn [find_expr delegate_expr].
    rewrite (run_lift (replace_in replace_prop) replace_expr (Fld f_properties)
               (fun xs => ObjectExpression xs)) by field_step.
    by rewrite (run_each_0 replace_prop found_p (delegate_prop key)).
  - intros k pk v cs [IHv _]. cbn [find_prop delegate_prop].
    rewrite (run_lift replace_expr replace_prop (Fld f_value)
               (fun x => Property k pk x cs)) by field_step.
    by rewrite IHv.
  - intros e cs [IHe Hsub].
    assert (run replace_stmt (under (Fld f_expression) (found_e e))
              (ExpressionStatement e cs)
            = ExpressionStatement (delegate_expr key e) cs) as Hplain.
    { rewrite (run_lift replace_expr replace_stmt (Fld f_expression)
                 (fun x => ExpressionStatement x cs)) by field_step.
      by rewrite IHe. }
    destruct e as [| | | |o p c|callee args| | |]; try exact Hplain.
    destruct callee as [| | | |o p c| | | |]; try exact Hplain.
    destruct p as [name| | | | | | | |]; try exact Hplain.
    cbn [find_stmt visitExpressionStatement superExprFilter delegate_stmt].
    destruct (String.eqb name "_super"); [|exact Hplain].
    cbn [app]. rewrite run_cons, superMethodCall_call. cbn [path_loc replace_stmt].
    rewrite (run_lift replace_expr replace_stmt (Fld f_expression)
               (fun x => ExpressionStatement x [])) by field_step.
    unfold memberExpression.
    generalize (match key_node key with
                | Literal _ | MemberExpression _ _ _ => true
                | _ => false
                end) as computed.
    intros computed. cbn [find_expr]. rewrite run_app.
    rewrite (run_lift replace_expr replace_expr (Fld f_callee)
               (fun x => CallExpression x args)) by field_step.
    rewrite run_app.
    rewrite (run_lift replace_expr replace_expr (Fld f_object)
               (fun x => MemberExpression x (key_node key) computed)) by field_step.
    rewrite (run_leaf _ Super) by done. cbn [under map run foldl].
    rewrite (run_lift (replace_in replace_expr) replace_expr (Fld f_arguments)
               (fun xs => CallExpression _ xs)) by field_step.
    by rewrite (run_each_0 replace_expr found_e (delegate_expr key)).
  - intros b IHb. cbn [find_stmt delegate_stmt visitExpressionStatement app].
    rewrite (run_lift (replace_in replace_stmt) replace_stmt (Fld f_body)
               (fun xs => BlockStatement xs)) by field_step.
    by rewrite (run_each_0 replace_stmt found_s (delegate_stmt key)).
  - intros t c a [IHt _] IHc IHa.
    cbn [find_stmt delegate_stmt visitExpressionStatement app].
    rewrite !run_app.
    rewrite (run_lift replace_expr replace_stmt (Fld f_test)
               (fun x => IfStatement x c a)) by field_step.
    rewrite (run_lift replace_stmt replace_stmt (Fld f_consequent)
               (fun x => IfStatement _ x a)) by field_step.
    rewrite IHt, IHc. destruct a as [a'|]; [|done].
    rewrite (run_lift replace_stmt replace_stmt (Fld f_alternate)
               (fun x => IfStatement _ _ (Some x))) by field_step.
    cbn in IHa. by rewrite IHa.
  - intros t b [IHt _] IHb.
    cbn [find_stmt delegate_stmt visitExpressionStatement app].
    rewrite !run_app.
    rewrite (run_lift replace_expr replace_stmt (Fld f_test)
               (fun x => WhileStatement x b)) by field_step.
    rewrite (run_lift replace_stmt replace_stmt (Fld f_body)
               (fun x => WhileStatement _ x)) by field_step.
    by rewrite IHt, IHb.
  - intros a IHa.
    cbn [find_stmt delegate_stmt visitExpressionStatement app].
    destruct a as [a'|]; [|done].
    rewrite (run_lift replace_expr replace_stmt (Fld f_argument)
               (fun x => ReturnStatement (Some x))) by field_step.
    cbn in IHa. destruct IHa as [IHa _]. by rewrite IHa.
Qed.
End Run.

(** ** The superclass-delegation rewriter *)

(** The loop on one decorator. *)
Lemma run_delegate_decorator key (d : Decorator) :
  superExprs_forEach replace_decorator key (find_decorator superExprFilter d) d
  = delegate_decorator key d.
Proof.
  destruct d as [e]. cbn [find_decorator delegate_decorator].
  rewrite (run_lift key replace_expr replace_decorator (Fld f_expression) mkDecorator)
    by done.
  by rewrite (proj1 (proj1 (run_delegate key) e)).
Qed.

(** The loop of [replaceSuperExpressions] computes the structural rewriting of
    the function and of the decorators the method holds; nothing else of the
    method changes. *)
Lemma replaceSuperExpressions_value (m : MethodDefinition.t) :
  replaceSuperExpressions m
  = MethodDefinition.mk (MethodDefinition.kind m) (MethodDefinition.key m)
      (delegate_expr (MethodDefinition.key m) (MethodDefinition.value m))
      (MethodDefinition.comments m)
      (map (delegate_decorator (MethodDefinition.key m)) (MethodDefinition.decorators m)).
Proof.
  destruct m as [kind key value comments decorators].
  unfold replaceSuperExpressions, find_method.
  cbn [MethodDefinition.value MethodDefinition.key MethodDefinition.decorators].
  pose proof (proj1 (proj1 (run_delegate key) value)) as Hvalue.
  pose proof (run_each_0 key replace_decorator (find_decorator superExprFilter)
                (delegate_decorator key) decorators
                (Forall_true _ _ (run_delegate_decorator key))) as Hdecorators.
  case_bool_decide as Hlen.
  - rewrite length_app in Hlen. unfold under in Hlen. rewrite !length_map in Hlen.
    assert (find_expr superExprFilter value = []) as Hv
      by (apply nil_length_inv; lia).
    assert (each (find_decorator superExprFilter) 0 decorators = []) as Hd
      by (apply nil_length_inv; lia).
    rewrite Hv in Hvalue. rewrite Hd in Hdecorators. cbn in Hvalue, Hdecorators.
    by rewrite <- Hvalue, <- Hdecorators.
  - rewrite run_app.
    rewrite (run_lift key replace_expr replace_method (Fld f_value)
               (fun x => MethodDefinition.mk kind key x comments decorators)) by done.
    rewrite (run_lift key (replace_in replace_decorator) replace_method (Fld f_decorators)
               (fun x => MethodDefinition.mk kind key _ comments x)) by done.
    by rewrite Hvalue, Hdecorators.
Qed.

(** A statement the filter matches becomes the call of [super.<key>]. *)
Lemma delegate_stmt_match key callee args cs :
  superExprFilter (ExpressionStatement (CallExpression callee args) cs) = true ->
  delegate_stmt key (ExpressionStatement (CallExpression callee args) cs)
  = ExpressionStatement
      (CallExpression (memberExpression Super (key_node key))
         (map (delegate_expr key) args))
      [].
Proof.
  destruct callee as [| | | |o p c| | | |]; try done.
  destruct p as [name| | | | | | | |]; try done.
  cbn. by intros ->.
Qed.

(** A statement the filter does not match stays an expression statement with
    its comments. *)
Lemma delegate_stmt_plain key e cs :
  superExprFilter (ExpressionStatement e cs) = false ->
  delegate_stmt key (ExpressionStatement e cs)
  = ExpressionStatement (delegate_expr key e) cs.
Proof.
  destruct e as [| | | |o p c|callee args| | |]; try done.
  destruct callee as [| | | |o p c| | | |]; try done.
  destruct p as [name| | | | | | | |]; try done.
  cbn. by intros ->.
Qed.

(** The rewriting of an expression does not change whether the statement that
    holds it matches the filter. *)
Lemma superExprFilter_delegate key e cs cs' :
  superExprFilter (ExpressionStatement (delegate_expr key e) cs')
  = superExprFilter (ExpressionStatement e cs).
Proof.
  destruct e as [| | | |o p c|callee args| | |]; try done.
  destruct callee as [| | | |o p c| | | |]; try done.
  by destruct p.
Qed.

Lemma delegate_super_member key k :
  delegate_expr key (memberExpression Super (key_node k)) = memberExpression Super (key_node k).
Proof. by destruct k. Qed.

(** Rewriting what has been rewritten changes nothing. *)
Lemma delegate_idempotent key :
  (forall e, delegate_expr key (delegate_expr key e) = delegate_expr key e
             /\ match e with
                | CallExpression _ args =>
                    Forall (fun x => delegate_expr key (delegate_expr key x)
                                     = delegate_expr key x) args
                | _ => True
                end)
  /\ (forall p, delegate_prop key (delegate_prop key p) = delegate_prop key p)
  /\ (forall s, delegate_stmt key (delegate_stmt key s) = delegate_stmt key s).
Proof.
  assert (forall (T : Type) (f : T -> T) (l : list T),
             Forall (fun x => f (f x) = f x) l -> map f (map f l) = map f l) as Hmap.
  { intros T f l Hl. induction Hl as [|x l Hx _ IH]; [done|]. cbn. by rewrite Hx, IH. }
  assert (forall (P Q : expr -> Prop) (l : list expr),
             Forall (fun x => P x /\ Q x) l -> Forall P l) as Hfst.
  { intros P Q l Hl. eapply List.Forall_impl; [|exact Hl]. by intros x [Hx _]. }
  apply ast_ind; try done.
  - intros o p c [IHo _] [IHp _]. split; [|done]. cbn. by rewrite IHo, IHp.
  - intros c args [IHc _] IHargs. apply Hfst in IHargs.
    split; [|done]. cbn. by rewrite IHc, Hmap.
  - intros op l r [IHl _] [IHr _]. split; [|done]. cbn. by rewrite IHl, IHr.
  - intros id ps b IHps IHb. apply Hfst in IHps.
    split; [|done]. cbn. by rewrite IHb, Hmap.
  - intros props IHprops. split; [|done]. cbn. by rewrite Hmap.
  - intros k pk v cs [IHv _]. cbn. by rewrite IHv.
  - intros e cs [IHe Hsub].
    destruct (superExprFilter (ExpressionStatement e cs)) eqn:Hf.
    + destruct e as [| | | |o p c|callee args| | |]; try done.
      rewrite (delegate_stmt_match _ _ _ _ Hf).
      destruct (superExprFilter
                  (ExpressionStatement
                     (CallExpression (memberExpression Super (key_node key))
                        (map (delegate_expr key) args)) [])) eqn:Hf'.
      * rewrite (delegate_stmt_match _ _ _ _ Hf'). by rewrite Hmap.
      * rewrite (delegate_stmt_plain _ _ _ Hf'). cbn [delegate_expr].
        by rewrite delegate_super_member, Hmap.
    + rewrite (delegate_stmt_plain _ _ _ Hf).
      rewrite delegate_stmt_plain by (by rewrite (superExprFilter_delegate key e cs cs)).
      by rewrite IHe.
  - intros b IHb. cbn. by rewrite Hmap.
  - intros t c a [IHt _] IHc IHa. cbn. rewrite IHt, IHc.
    destruct a as [a'|]; [|done]. cbn in IHa. by rewrite IHa.
  - intros t b [IHt _] IHb. cbn. by rewrite IHt, IHb.
  - intros a IHa. destruct a as [a'|]; [|done]. cbn in *. destruct IHa as [IHa _].
    by rewrite IHa.
Qed.

Lemma delegate_decorators_idempotent key (ds : list Decorator) :
  map (delegate_decorator key) (map (delegate_decorator key) ds)
  = map (delegate_decorator key) ds.
Proof.
  rewrite <- list_fmap_compose. apply list_fmap_ext. intros i [e] _. cbn.
  by rewrite (proj1 (proj1 (delegate_idempotent key) e)).
Qed.

(** C1, at the failing input.  Whatever the receiver of the call and whatever
    its [computed] flag, a statement [<receiver>._super(<args>);] that is the
    body of a method is replaced by the statement [super.<key>(<args>);]: the
    receiver is never looked at, so [other._super(x);] is rewritten as
    [this._super(x);] is. *)
Theorem replaceSuperExpressions_whatever_receiver
    (kind : string) (key : Key) (receiver : expr) (computed : bool)
    (args : list expr) (cs : list Comment) :
  replaceSuperExpressions
    (MethodDefinition.mk kind key
       (FunctionExpression None []
          (BlockStatement
             [ ExpressionStatement
                 (CallExpression
                    (MemberExpression receiver (Identifier "_super") computed) args)
                 cs ]))
       [] [])
  = MethodDefinition.mk kind key
      (FunctionExpression None []
         (BlockStatement
            [ ExpressionStatement
                (CallExpression (memberExpression Super (key_node key))
                   (map (delegate_expr key) args))
                [] ]))
      [] [].
Proof. by rewrite replaceSuperExpressions_value. Qed.

(** C9.  For every method, applying [replaceSuperExpressions] to its own
    result changes nothing. *)
Theorem replaceSuperExpressions_idempotent (m : MethodDefinition.t) :
  replaceSuperExpressions (replaceSuperExpressions m) = replaceSuperExpressions m.
Proof.
  rewrite !replaceSuperExpressions_value. cbn.
  by rewrite (proj1 (proj1 (delegate_idempotent _) _)), delegate_decorators_idempotent.
Qed.

(** ** The constructor synthesizer *)

Lemma instancePropsToExpressions_assignments (instanceProps : list EOProp.t) :
  instancePropsToExpressions instanceProps = map assignment_of instanceProps.
Proof. done. Qed.

(** C4.  For every list of instance properties, [createConstructor] returns:
    for the empty list no constructor; for any other list exactly one
    constructor, whose body is the statement [super()] followed by the
    assignments [this.<key> = <value>] of the properties, one per property
    and in the order of the list (the assignment at each position is the one
    of the property at that position, built by [j.memberExpression], which
    writes [this[<key>]] for a literal key), none of which is a [super()]
    statement. *)
Theorem createConstructor_spec (instanceProps : list EOProp.t) :
  match instanceProps with
  | [] => createConstructor instanceProps = Ok []
  | _ :: _ =>
      createConstructor instanceProps
      = Ok [ MethodDefinition.mk "constructor" (KeyIdentifier "constructor")
               (FunctionExpression None []
                  (BlockStatement
                     (ExpressionStatement (CallExpression Super []) []
                      :: map assignment_of instanceProps)))
               [] [] ]
  end
  /\ length (map assignment_of instanceProps) = length instanceProps
  /\ (forall i, map assignment_of instanceProps !! i = assignment_of <$> instanceProps !! i)
  /\ Forall (fun s => s <> createSuperExpressionStatement) (map assignment_of instanceProps)
  /\ (forall instanceProp,
        assignment_of instanceProp
        = ExpressionStatement
            (AssignmentExpression "="
               (MemberExpression ThisExpression (key_node (EOProp.key instanceProp))
                  (match EOProp.key instanceProp with
                   | KeyLiteral _ => true
                   | KeyIdentifier _ => false
                   end))
               (EOProp.value instanceProp))
            (EOProp.comments instanceProp)).
Proof.
  split_and!.
  - by destruct instanceProps.
  - apply length_map.
  - intros i. apply list_lookup_fmap.
  - apply Forall_fmap, Forall_true. by intros p.
  - intros p. unfold assignment_of. by destruct (EOProp.key p).
Qed.

(** ** The superclass-expression builder *)

(** C5, counterexample.  With an empty name and no mixin the builder returns
    the identifier with the empty name, where the prose has no superclass. *)
Lemma createSuperClassExpression_empty_name :
  createSuperClassExpression "" [] = Identifier ""
  /\ superclassExpr_described "" [] = None
  /\ Some (createSuperClassExpression "" []) <> superclassExpr_described "" [].
Proof. by split_and!. Qed.

(** C5, as amended.  For every name and list of mixins: with no mixin the
    builder returns the identifier of the name, whatever the name (also the
    empty one); with one mixin or more it returns the call
    [<name>.extend(<mixins>)], the mixins in their order. *)
Theorem createSuperClassExpression_spec (superClassName : string) (mixins : list expr) :
  createSuperClassExpression superClassName mixins
  = match mixins with
    | [] => Identifier superClassName
    | _ :: _ =>
        CallExpression
          (MemberExpression (Identifier superClassName) (Identifier "extend") false)
          mixins
    end.
Proof.
  unfold createSuperClassExpression. destruct mixins; [done|].
  by rewrite bool_decide_true by (cbn; lia).
Qed.

(** ** The method synthesizer *)

(** The builder refuses what is not buildable; of what is, the method has the
    accessor kind of the property ([init] becomes [method], any other kind is
    kept), its key and comments, its function rewritten, and the decorators
    given. *)
Lemma createMethodProp_spec (functionProp : FunctionProp.t) (decorators : list Decorator) :
  createMethodProp functionProp decorators
  = if buildable functionProp
    then Ok (MethodDefinition.mk
               (method_kind (FunctionProp.kind functionProp))
               (FunctionProp.key functionProp)
               (delegate_expr (FunctionProp.key functionProp)
                  (FunctionProp.value functionProp))
               (FunctionProp.comments functionProp)
               decorators)
    else BuilderError.
Proof.
  unfold createMethodProp, methodDefinition, buildable, method_kind.
  destruct (is_method_kind _ && is_function _); [|done].
  cbn [mbind result_bind]. rewrite replaceSuperExpressions_value.
  by destruct decorators.
Qed.

(** A loop that throws one exception only. *)
Lemma map_result_forallb {A B : Type} (f : A -> result B) (ok : A -> bool) (g : A -> B)
    (e : string) (l : list A) :
  (forall x, f x = if ok x then Ok (g x) else Throw e) ->
  map_result f l = if forallb ok l then Ok (map g l) else Throw e.
Proof.
  intros Hf. induction l as [|x l IH]; [done|].
  cbn [map_result forallb map]. rewrite Hf, IH.
  destruct (ok x); [|done]. by destruct (forallb ok l).
Qed.

Section HelperProperties.
Context `{Collaborators}.

(** ** The action-hash expander *)

(** The method made of one entry of the [actions] hash. *)
Lemma createActionDecoratedProps_object (actionsProp : EOProp.t) (entries : list prop) :
  EOProp.value actionsProp = ObjectExpression entries ->
  createActionDecoratedProps actionsProp
  = if forallb action_usable entries
    then Ok (map action_method entries,
             EOProp.with_value (ObjectExpression (map action_after entries)) actionsProp)
    else BuilderError.
Proof.
  intros Hv. unfold createActionDecoratedProps. rewrite Hv.
  rewrite (map_result_forallb _ action_usable action_method "Error").
  2:{ intros [k key v cs]. by rewrite createMethodProp_spec. }
  destruct (forallb action_usable entries); [|done].
  cbn [mbind result_bind]. do 2 f_equal. unfold EOProp.with_value. do 2 f_equal.
  clear Hv. induction entries as [|[k key v cs] entries IH]; [done|].
  cbn. by rewrite IH.
Qed.

(** C8, as amended.  For every property whose value is an object expression
    with [K] entries: when every entry has a function as its value and a kind
    that is [init] or one the method builder accepts ([constructor],
    [method], [get], [set]), the action-hash expander returns [K] methods, in
    the order of the entries (the method at each position has the key and
    the comments of the entry at that position and its function, rewritten),
    every one of them with the action decorators of the collaborator
    attached; when some entry is of another shape, the expander throws the
    [Error] of the method builder. *)
Theorem createActionDecoratedProps_methods (actionsProp : EOProp.t) (entries : list prop) :
  if forallb action_usable entries then
    exists methods actionsProp',
      createActionDecoratedProps (EOProp.with_value (ObjectExpression entries) actionsProp)
      = Ok (methods, actionsProp')
      /\ length methods = length entries
      /\ (forall i,
            methods !! i
            = (fun entry =>
                 MethodDefinition.mk
                   (if String.eqb (FunctionProp.kind (FunctionProp.of_Property entry)) "init"
                    then "method"
                    else FunctionProp.kind (FunctionProp.of_Property entry))
                   (FunctionProp.key (FunctionProp.of_Property entry))
                   (delegate_expr (FunctionProp.key (FunctionProp.of_Property entry))
                      (FunctionProp.value (FunctionProp.of_Property entry)))
                   (FunctionProp.comments (FunctionProp.of_Property entry))
                   createActionDecorators) <$> entries !! i)
      /\ Forall (fun m => MethodDefinition.decorators m = createActionDecorators) methods
  else
    createActionDecoratedProps (EOProp.with_value (ObjectExpression entries) actionsProp)
    = Throw "Error".
Proof.
  rewrite (createActionDecoratedProps_object _ entries) by done.
  destruct (forallb action_usable entries); [|done].
  eexists _, _. split_and!.
  - done.
  - apply length_map.
  - intros i. rewrite list_lookup_fmap. destruct (entries !! i) as [[k key v cs]|]; done.
  - apply Forall_fmap, Forall_true. by intros [k key v cs].
Qed.

(** Where one property becomes one construct, the construct carries the
    comments of the property: a method those of its function property, a
    field those of its instance property (and a constructor assignment those
    of its instance property, by [instancePropsToExpressions_assignments]). *)
Lemma comments_copied :
  (forall functionProp decorators m,
      createMethodProp functionProp decorators = Ok m ->
      MethodDefinition.comments m = FunctionProp.comments functionProp)
  /\ (forall instanceProp,
        ClassProperty.comments (createClassProp instanceProp)
        = EOProp.comments instanceProp).
Proof.
  split.
  - intros functionProp decorators m. rewrite createMethodProp_spec.
    destruct (buildable functionProp); [|done]. by intros [= <-].
  - intros instanceProp. unfold createClassProp.
    by destruct (createInstancePropDecorators instanceProp).
Qed.

(** C7, at the failing input.  Whatever the comments of the [actions]
    property, the methods made of its entries carry the comments of the
    entries: the comments of the property itself are attached to no member.
    (This is so whenever a method can be built of every entry; otherwise the
    expander throws and there is no member at all.) *)
Theorem createActionDecoratedProps_comments (actionsProp : EOProp.t) (entries : list prop) :
  if forallb action_usable entries then
    exists methods actionsProp',
      createActionDecoratedProps (EOProp.with_value (ObjectExpression entries) actionsProp)
      = Ok (methods, actionsProp')
      /\ map MethodDefinition.comments methods
         = map (fun entry => FunctionProp.comments (FunctionProp.of_Property entry)) entries
  else
    createActionDecoratedProps (EOProp.with_value (ObjectExpression entries) actionsProp)
    = Throw "Error".
Proof.
  rewrite (createActionDecoratedProps_object _ entries) by done.
  destruct (forallb action_usable entries); [|done].
  eexists _, _. split; [done|].
  rewrite <- list_fmap_compose. apply list_fmap_ext. by intros i [k key v cs] _.
Qed.

(** ** The class-field synthesizer *)

Lemma createClassProp_spec (instanceProp : EOProp.t) :
  createClassProp instanceProp
  = ClassProperty.mk (EOProp.key instanceProp)
      (if shouldSetValue instanceProp then Some (EOProp.value instanceProp) else None)
      (EOProp.computed instanceProp)
      (EOProp.comments instanceProp)
      (createInstancePropDecorators instanceProp).
Proof.
  unfold createClassProp. by destruct (createInstancePropDecorators instanceProp).
Qed.

(** ** The call-expression property handler *)

(** One step of the loop over the entries of the object expression. *)
Lemma callExprFunction_to_method_spec (callExprProp : EOProp.t) (entry : prop) :
  callExprFunction_to_method callExprProp entry
  = if has_params entry
    then if is_method_kind (method_kind (getPropName entry))
         then Ok (entry_method (EOProp.key callExprProp) entry,
                  entry_after (EOProp.key callExprProp) entry)
         else BuilderError
    else TypeError.
Proof.
  destruct entry as [k key v cs].
  destruct v; try done.
  cbn [callExprFunction_to_method has_params]. rewrite createMethodProp_spec.
  unfold buildable. cbn [FunctionProp.of_Property FunctionProp.kind FunctionProp.value
                          FunctionProp.key FunctionProp.comments is_function].
  rewrite andb_true_r. by destruct (is_method_kind _).
Qed.

(** The loop over the entries: it throws at the first entry whose value has
    no parameters or whose kind the builder refuses, and otherwise makes one
    method of each entry. *)
Lemma callExprFunctions_to_methods (callExprProp : EOProp.t) (entries : list prop) :
  map_result (callExprFunction_to_method callExprProp) entries
  = match entries_error entries with
    | None =>
        Ok (map (fun entry => (entry_method (EOProp.key callExprProp) entry,
                               entry_after (EOProp.key callExprProp) entry))
                entries)
    | Some e => Throw e
    end.
Proof.
  induction entries as [|entry entries IH]; [done|].
  cbn [map_result entries_error map]. rewrite callExprFunction_to_method_spec, IH.
  destruct (has_params entry); [|done].
  destruct (is_method_kind _); [|done].
  cbn [negb mbind result_bind]. by destruct (entries_error entries).
Qed.

(** When every entry is usable, the loop over the entries throws nothing. *)
Lemma entries_error_usable (entries : list prop) :
  forallb entry_usable entries = true -> entries_error entries = None.
Proof.
  induction entries as [|entry entries IH]; [done|].
  cbn [forallb entries_error]. unfold entry_usable at 1.
  destruct (has_params entry); [|done].
  destruct (is_method_kind _); [|done]. exact IH.
Qed.

(** The handler on an object expression: with no entry, or with an entry of
    which no method can be made, it throws; otherwise it returns one method
    per entry, the first one with the comments and the decorators of the
    property. *)
Lemma createCallExpressionProp_object (callExprProp : EOProp.t) (entries : list prop) :
  list.last (EOProp.callExprArgs callExprProp) = Some (ObjectExpression entries) ->
  createCallExpressionProp callExprProp
  = match entries_error entries, entries with
    | Some e, _ => Throw e
    | None, [] => TypeError
    | None, first :: rest =>
        Ok (Method
              (MethodDefinition.mk
                 (MethodDefinition.kind (entry_method (EOProp.key callExprProp) first))
                 (EOProp.key callExprProp)
                 (MethodDefinition.value (entry_method (EOProp.key callExprProp) first))
                 (EOProp.comments callExprProp)
                 (createInstancePropDecorators
                    (left_by (call_change callExprProp) callExprProp)))
              :: map (fun entry => Method (entry_method (EOProp.key callExprProp) entry))
                   rest,
            call_change callExprProp)
    end.
Proof.
  intros Hlast. unfold createCallExpressionProp, call_change. rewrite Hlast.
  rewrite callExprFunctions_to_methods.
  destruct (entries_error entries); [done|].
  destruct entries as [|first rest]; [done|].
  cbn [mbind result_bind map fmap list_fmap fst snd].
  rewrite <- !list_fmap_compose.
  assert ((snd ∘ (fun entry => (entry_method (EOProp.key callExprProp) entry,
                                entry_after (EOProp.key callExprProp) entry)))
          = entry_after (EOProp.key callExprProp)) as -> by done.
  do 3 f_equal.
  destruct first as [k key v cs].
  by destruct (createInstancePropDecorators _).
Qed.

(** The handler on a function expression. *)
Lemma createCallExpressionProp_function (callExprProp : EOProp.t) id params body :
  list.last (EOProp.callExprArgs callExprProp)
  = Some (FunctionExpression id params body) ->
  createCallExpressionProp callExprProp
  = if is_method_kind (method_kind (EOProp.kind callExprProp))
    then Ok ([Method
                (MethodDefinition.mk
                   (method_kind (EOProp.kind callExprProp))
                   (EOProp.key callExprProp)
                   (delegate_expr (EOProp.key callExprProp)
                      (FunctionExpression id params body))
                   (EOProp.comments callExprProp)
                   (createInstancePropDecorators callExprProp))],
             call_change callExprProp)
    else BuilderError.
Proof.
  intros Hlast. unfold createCallExpressionProp, call_change. rewrite Hlast.
  rewrite createMethodProp_spec. unfold buildable.
  cbn [FunctionProp.kind FunctionProp.value FunctionProp.key FunctionProp.comments
       is_function].
  rewrite andb_true_r. by destruct (is_method_kind _).
Qed.

(** The handler on any other last argument, or on none. *)
Lemma createCallExpressionProp_other (callExprProp : EOProp.t) :
  lastArg_recognized callExprProp = false ->
  createCallExpressionProp callExprProp
  = Ok ([Field (createClassProp callExprProp)], Unchanged)
  /\ call_change callExprProp = Unchanged.
Proof.
  unfold lastArg_recognized, createCallExpressionProp, call_change.
  destruct (list.last (EOProp.callExprArgs callExprProp)) as [[]|]; done.
Qed.

(** Whenever the handler returns, it has changed what [call_change] says. *)
Lemma createCallExpressionProp_after (callExprProp : EOProp.t) members change :
  createCallExpressionProp callExprProp = Ok (members, change) ->
  change = call_change callExprProp.
Proof.
  destruct (list.last (EOProp.callExprArgs callExprProp)) as [lastArg|] eqn:Hlast.
  - destruct lastArg;
      try (intros Hok;
           destruct (createCallExpressionProp_other callExprProp) as [Heq Hc];
           [by unfold lastArg_recognized; rewrite Hlast|congruence]).
    + rewrite (createCallExpressionProp_function _ _ _ _ Hlast).
      destruct (is_method_kind _); [congruence|done].
    + rewrite (createCallExpressionProp_object _ _ Hlast).
      destruct (entries_error properties); [done|].
      destruct properties; [done|congruence].
  - intros Hok. destruct (createCallExpressionProp_other callExprProp) as [Heq Hc];
      [by unfold lastArg_recognized; rewrite Hlast|congruence].
Qed.

(** C3, at the failing input.  Whatever the other arguments and whatever
    the rest of the property, a call whose last argument is an object
    expression without entries makes the handler throw: there is no first
    method to attach the comments of the property to. *)
Theorem createCallExpressionProp_empty_object (callExprProp : EOProp.t) (args : list expr) :
  createCallExpressionProp
    (EOProp.with_callExprArgs (args ++ [ObjectExpression []]) callExprProp)
  = TypeError.
Proof.
  rewrite (createCallExpressionProp_object _ []); [done|].
  cbn. apply last_snoc.
Qed.

(** C6, as amended.  For every call-expression property whose last argument
    is neither a function expression nor an object expression (also when
    there is no argument at all), the handler does not throw: it returns one
    plain field with the key, the computed flag and the comments of the
    property and the decorators of the collaborator, whose initializer is the
    value of the property (the original call expression) when the
    collaborator says the value is to be set, and absent otherwise; the
    property is left as it was. *)
Theorem createCallExpressionProp_fallback (callExprProp : EOProp.t) :
  lastArg_recognized callExprProp = false ->
  createCallExpressionProp callExprProp
  = Ok ([Field
           (ClassProperty.mk (EOProp.key callExprProp)
              (if shouldSetValue callExprProp then Some (EOProp.value callExprProp)
               else None)
              (EOProp.computed callExprProp)
              (EOProp.comments callExprProp)
              (createInstancePropDecorators callExprProp))],
        Unchanged)
  /\ left_by Unchanged callExprProp = callExprProp.
Proof.
  intros Hlast. destruct (createCallExpressionProp_other _ Hlast) as [-> _].
  by rewrite createClassProp_spec.
Qed.

(** ** The class assembler *)

(** One turn of the loop of [createClass]: the members and the class
    decorators of the property are appended, and the property is left as
    [prop_after] describes. *)
Lemma createClass_visit_spec (st : ClassLoop) (prop : EOProp.t) :
  createClass_visit st prop
  = members ← members_of prop;
    Ok (mkLoop (classBody st ++ members)
          (classDecorators st ++ class_decorators_of prop)
          (visited st ++ [prop_after prop])).
Proof.
  unfold createClass_visit, members_of, class_decorators_of, prop_after, classify.
  destruct (EOProp.isClassDecorator prop).
  { cbn. by rewrite !app_nil_r. }
  destruct (String.eqb (EOProp.type prop) "FunctionExpression").
  { rewrite createMethodProp_spec. destruct (buildable _); [|done].
    cbn. by rewrite !app_nil_r. }
  destruct (EOProp.isCallExpression prop).
  { destruct (createCallExpressionProp prop) as [[members change]|e] eqn:Hcall; [|done].
    apply createCallExpressionProp_after in Hcall as ->. cbn. by rewrite !app_nil_r. }
  destruct (String.eqb (EOProp.name prop) "actions").
  { destruct (EOProp.value prop) eqn:Hv;
      try (unfold createActionDecoratedProps; rewrite Hv; done).
    rewrite (createActionDecoratedProps_object _ _ Hv).
    destruct (forallb action_usable properties); [|done].
    cbn. by rewrite !app_nil_r. }
  cbn. by rewrite !app_nil_r.
Qed.

(** The whole loop. *)
Lemma createClass_loop (props : list EOProp.t) (st : ClassLoop) :
  forEach_result createClass_visit props st
  = memberss ← map_result members_of props;
    Ok (mkLoop (classBody st ++ concat memberss)
          (classDecorators st ++ concat (map class_decorators_of props))
          (visited st ++ map prop_after props)).
Proof.
  revert st. induction props as [|prop props IH]; intros st.
  { destruct st. cbn. by rewrite !app_nil_r. }
  cbn [forEach_result map_result]. rewrite createClass_visit_spec.
  destruct (members_of prop) as [members|e]; [|done].
  cbn [mbind result_bind]. rewrite IH.
  destruct (map_result members_of props) as [memberss|e]; [|done].
  cbn. by rewrite <- !app_assoc.
Qed.

(** C2.  For every list of properties, [createClass] returns exactly when
    every property can be turned into its members by the rule that matches it
    first ([members_of]: class decorator, then function-valued type, then
    call expression, then the name [actions], then plain field), and the body
    of the class is then the concatenation, in the order of the properties,
    of the members of each: a class-decorator property contributes none, and
    the members of one property are contiguous, at the place of the
    property. *)
Theorem createClass_members (className : string) (instanceProps : list EOProp.t)
    (superClassName : string) (mixins : list expr) :
  match createClass className instanceProps superClassName mixins,
        map_result members_of instanceProps with
  | Ok (class, _), Ok memberss =>
      ClassDeclaration.body class = concat memberss
      /\ length memberss = length instanceProps
      /\ Forall2 (fun prop members =>
                    members_of prop = Ok members
                    /\ (classify prop = ClassDecoratorRule -> members = []))
           instanceProps memberss
  | Throw _, Throw _ => True
  | _, _ => False
  end.
Proof.
  unfold createClass. rewrite createClass_loop.
  assert (forall memberss,
            map_result members_of instanceProps = Ok memberss ->
            Forall2 (fun prop members => members_of prop = Ok members)
              instanceProps memberss) as Hall.
  { induction instanceProps as [|prop props IH]; intros memberss Hm.
    - cbn in Hm. injection Hm as <-. constructor.
    - cbn in Hm. destruct (members_of prop) as [members|] eqn:Hp; [|done].
      destruct (map_result members_of props) as [rest|]; [|done].
      cbn in Hm. injection Hm as <-. constructor; [done|]. by apply IH. }
  destruct (map_result members_of instanceProps) as [memberss|e]; [|done].
  specialize (Hall _ eq_refl). cbn.
  split_and!.
  - by destruct (concat (map class_decorators_of instanceProps)).
  - symmetry. by eapply Forall2_length.
  - eapply List.Forall2_impl; [|exact Hall]. intros prop members Hm. split; [done|].
    intros Hrule. unfold members_of in Hm. rewrite Hrule in Hm. congruence.
Qed.

(** A change of the last call argument keeps the number of arguments. *)
Lemma left_by_length (change : Change) (prop : EOProp.t) :
  is_Some (list.last (EOProp.callExprArgs prop)) ->
  length (EOProp.callExprArgs (left_by change prop))
  = length (EOProp.callExprArgs prop).
Proof.
  destruct change as [|lastArg']; [done|].
  cbn. destruct (EOProp.callExprArgs prop) as [|a l _] using rev_ind.
  - by intros [? ?].
  - intros _. by rewrite removelast_last, !length_app.
Qed.

(** What no helper assigns is the same before and after. *)
Lemma prop_after_description (prop : EOProp.t) :
  same_description prop (prop_after prop).
Proof.
  unfold prop_after, call_change.
  destruct (classify prop); try by repeat split.
  - destruct (list.last (EOProp.callExprArgs prop)) as [lastArg|] eqn:Hlast;
      [|by repeat split].
    destruct lastArg; try by repeat split.
    + repeat split. apply (left_by_length (LastArgChanged _)). by rewrite Hlast.
    + repeat split. apply (left_by_length (LastArgChanged _)). by rewrite Hlast.
  - destruct (EOProp.value prop); by repeat split.
Qed.

(** C10, as amended.  Whenever [createClass] returns, every property is left
    as [prop_after] describes: its key, kind, type, computed flag, name,
    comments and classification flags and the number of its call arguments are
    those it had, and a property handled as a class decorator or as a plain
    field is left as it was.  Of a property handled as a call expression
    whose last argument is a function or an object expression, the node in
    the last slot of the call arguments is changed, and the value reads as
    the adapter reads it then. *)
Theorem createClass_frame (className : string) (instanceProps : list EOProp.t)
    (superClassName : string) (mixins : list expr) class instanceProps' :
  createClass className instanceProps superClassName mixins = Ok (class, instanceProps') ->
  instanceProps' = map prop_after instanceProps
  /\ Forall (fun prop => same_description prop (prop_after prop)) instanceProps
  /\ Forall (fun prop =>
               classify prop = ClassDecoratorRule \/ classify prop = FieldRule ->
               prop_after prop = prop)
       instanceProps
  /\ Forall (fun prop =>
               classify prop = CallExpressionRule ->
               EOProp.callExprArgs (prop_after prop)
               = match call_change prop with
                 | Unchanged => EOProp.callExprArgs prop
                 | LastArgChanged lastArg' =>
                     removelast (EOProp.callExprArgs prop) ++ [lastArg']
                 end)
       instanceProps.
Proof.
  unfold createClass. rewrite createClass_loop.
  destruct (map_result members_of instanceProps) as [memberss|e]; [|done].
  cbn. intros [= _ <-]. split_and!; [done| | |].
  - apply Forall_true, prop_after_description.
  - apply Forall_true. intros prop [Hrule|Hrule]; unfold prop_after; by rewrite Hrule.
  - apply Forall_true. intros prop Hrule. unfold prop_after. rewrite Hrule.
    by destruct (call_change prop).
Qed.
End HelperProperties.

(** ** The properties at the sample inputs *)

(** C1, the failing input evaluated.  In [init() { other._super(function ()
    { this._super(); }); }] the outer statement is not a call of
    [this._super]: its receiver is [other].  It is replaced all the same. *)
Example replaceSuperExpressions_any_receiver :
  is_this_super_call
    (super_call (Identifier "other") [fn [] [super_call ThisExpression []]]) = false
  /\ replaceSuperExpressions init_method
     = MethodDefinition.mk "method" (KeyIdentifier "init")
         (fn [] [ ExpressionStatement
                    (CallExpression (MemberExpression Super (Identifier "init") false)
                       [ fn [] [ ExpressionStatement
                                   (CallExpression
                                      (MemberExpression Super (Identifier "init") false)
                                      [])
                                   [] ] ])
                    [] ])
         [] [].
Proof. split; reflexivity. Qed.

(** The rewriter leaves alone a call of [_super] that is not a statement of
    its own, and a call of another property:
    [init() { x = this._super(); this.other(); return this._super(); }]. *)
Example replaceSuperExpressions_unmatched :
  let body :=
    [ ExpressionStatement
        (AssignmentExpression "=" (Identifier "x")
           (CallExpression (MemberExpression ThisExpression (Identifier "_super") false) []))
        [];
      ExpressionStatement
        (CallExpression (MemberExpression ThisExpression (Identifier "other") false) [])
        [];
      ReturnStatement
        (Some (CallExpression
                 (MemberExpression ThisExpression (Identifier "_super") false) [])) ] in
  replaceSuperExpressions
    (MethodDefinition.mk "method" (KeyIdentifier "init") (fn [] body) [] [])
  = MethodDefinition.mk "method" (KeyIdentifier "init") (fn [] body) [] [].
Proof. reflexivity. Qed.

(** It replaces the statement [this._super(...arguments)] wherever it stands:
    [init() { if (ready) { while (busy) { this._super(a); } } }]. *)
Example replaceSuperExpressions_nested :
  replaceSuperExpressions
    (MethodDefinition.mk "method" (KeyIdentifier "init")
       (fn [] [ IfStatement (Identifier "ready")
                  (BlockStatement
                     [ WhileStatement (Identifier "busy")
                         (BlockStatement [super_call ThisExpression [Identifier "a"]]) ])
                  None ])
       [] [])
  = MethodDefinition.mk "method" (KeyIdentifier "init")
      (fn [] [ IfStatement (Identifier "ready")
                 (BlockStatement
                    [ WhileStatement (Identifier "busy")
                        (BlockStatement
                           [ ExpressionStatement
                               (CallExpression
                                  (MemberExpression Super (Identifier "init") false)
                                  [Identifier "a"])
                               [] ]) ])
                 None ])
      [] [].
Proof. reflexivity. Qed.

(** In a method with a literal key the call of [super] is a computed one:
    ["max-size"() { this._super(); }] becomes
    ["max-size"() { super["max-size"](); }]. *)
Example replaceSuperExpressions_literal_key :
  replaceSuperExpressions
    (MethodDefinition.mk "method" (KeyLiteral "max-size")
       (fn [] [super_call ThisExpression []]) [] [])
  = MethodDefinition.mk "method" (KeyLiteral "max-size")
      (fn [] [ ExpressionStatement
                 (CallExpression (MemberExpression Super (Literal "max-size") true) [])
                 [] ])
      [] [].
Proof. reflexivity. Qed.

(** C4, evaluated: the constructor made of ["max-size": 10] assigns
    [this["max-size"] = 10], with the comment of the property. *)
Example createConstructor_maxSize :
  createConstructor [maxSize]
  = Ok [ MethodDefinition.mk "constructor" (KeyIdentifier "constructor")
           (FunctionExpression None []
              (BlockStatement
                 [ ExpressionStatement (CallExpression Super []) [];
                   ExpressionStatement
                     (AssignmentExpression "="
                        (MemberExpression ThisExpression (Literal "max-size") true)
                        (Literal "10"))
                     ["limit"] ]))
           [] [] ].
Proof. reflexivity. Qed.

(** C3, the failing input evaluated: [cache: computed({})]. *)
Example createCallExpressionProp_cache :
  @createCallExpressionProp plainCollaborators cache = Throw "TypeError".
Proof. reflexivity. Qed.

(** Where every entry is a function, the handler does what is expected of
    it: [fullName: computed({ get(key) {...}, set(key, value) {...} })]
    becomes a getter and a setter with the key [fullName], each without the
    parameter [key], the first one with the comment of the property. *)
Example createCallExpressionProp_fullName :
  exists change,
    @createCallExpressionProp plainCollaborators fullName
    = Ok ([ Method (MethodDefinition.mk "get" (KeyIdentifier "fullName")
                      (fn [] [ReturnStatement None]) ["full name"] []);
            Method (MethodDefinition.mk "set" (KeyIdentifier "fullName")
                      (fn ["value"] []) [] []) ],
          change).
Proof. eexists. reflexivity. Qed.

(** C6, counterexample.  On [cache: computed({})], whose last argument is an
    object expression without entries, the handler throws instead of
    returning a plain field; and on [store: service()], under collaborators
    that do not set the value, the plain field it returns has no
    initializer. *)
Lemma createCallExpressionProp_not_a_plain_field :
  @createCallExpressionProp plainCollaborators cache = Throw "TypeError"
  /\ @createCallExpressionProp decoratingCollaborators store
     = Ok ([Field (ClassProperty.mk (KeyIdentifier "store") None false []
                     [mkDecorator (CallExpression (Identifier "service") [])])],
           Unchanged).
Proof. split; reflexivity. Qed.

(** C6, witness: [store: service()], under collaborators that set the
    value. *)
Lemma createCallExpressionProp_fallback_witness :
  lastArg_recognized store = false
  /\ @createCallExpressionProp plainCollaborators store
     = Ok ([Field (ClassProperty.mk (KeyIdentifier "store")
                     (Some (CallExpression (Identifier "service") [])) false [] [])],
           Unchanged)
  /\ @left_by plainCollaborators Unchanged store = store.
Proof.
  split; [reflexivity|].
  apply (@createCallExpressionProp_fallback plainCollaborators store). reflexivity.
Defined.

(** C7, the failing input evaluated: the comment [handlers] of the [actions]
    property is on no method. *)
Example createActionDecoratedProps_actions :
  EOProp.comments actions = ["handlers"]
  /\ exists actions',
       @createActionDecoratedProps plainCollaborators actions
       = Ok ([ MethodDefinition.mk "method" (KeyIdentifier "save")
                 (fn [] [ ExpressionStatement
                            (CallExpression
                               (MemberExpression Super (Identifier "save") false) [])
                            [] ])
                 [] [mkDecorator (Identifier "action")] ],
             actions').
Proof. split; [reflexivity|]. eexists. reflexivity. Qed.

(** C8, counterexample.  The property [actions: { limit: 1 }] is named
    [actions] and its value is an object expression with one entry; the
    expander returns no method for it: the method builder refuses the value
    [1], which is not a function, and the expander throws. *)
Lemma createActionDecoratedProps_not_a_function :
  EOProp.name settings = "actions"
  /\ EOProp.value settings
     = ObjectExpression [Property "init" (KeyIdentifier "limit") (Literal "1") []]
  /\ @createActionDecoratedProps plainCollaborators settings = Throw "Error".
Proof. split_and!; reflexivity. Qed.

(** C10, counterexample.  After the class has been made of the single
    property [fullName], the entries of the object expression in its call
    arguments have another kind and another key, and their functions have
    lost their first parameter. *)
Lemma createClass_overwrites_entries :
  exists class instanceProps',
    @createClass plainCollaborators "Person" [fullName] "EmberObject" []
    = Ok (class, instanceProps')
    /\ map EOProp.callExprArgs instanceProps'
       = [ [ ObjectExpression
               [ Property "get" (KeyIdentifier "fullName")
                   (fn [] [ReturnStatement None]) ["getter"];
                 Property "set" (KeyIdentifier "fullName") (fn ["value"] []) [] ] ] ]
    /\ map EOProp.callExprArgs [fullName]
       = [ [ ObjectExpression
               [ Property "init" (KeyIdentifier "get")
                   (fn ["key"] [ReturnStatement None]) ["getter"];
                 Property "init" (KeyIdentifier "set") (fn ["key"; "value"] []) [] ] ] ]
    /\ instanceProps' <> [fullName].
Proof. eexists _, _. split_and!; [reflexivity|reflexivity|reflexivity|discriminate]. Qed.

(** C10, witness: a class made of [fullName], [actions] and [store]. *)
Lemma createClass_frame_witness :
  exists class instanceProps',
    @createClass plainCollaborators "Person" [fullName; actions; store] "EmberObject" []
    = Ok (class, instanceProps')
    /\ (instanceProps' = map (@prop_after plainCollaborators) [fullName; actions; store]
        /\ Forall (fun prop => same_description prop (@prop_after plainCollaborators prop))
             [fullName; actions; store]
        /\ Forall (fun prop =>
                     classify prop = ClassDecoratorRule \/ classify prop = FieldRule ->
                     @prop_after plainCollaborators prop = prop)
             [fullName; actions; store]
        /\ Forall (fun prop =>
                     classify prop = CallExpressionRule ->
                     EOProp.callExprArgs (@prop_after plainCollaborators prop)
                     = match @call_change plainCollaborators prop with
                       | Unchanged => EOProp.callExprArgs prop
                       | LastArgChanged lastArg' =>
                           removelast (EOProp.callExprArgs prop) ++ [lastArg']
                       end)
             [fullName; actions; store]).
Proof.
  eexists _, _. split; [reflexivity|].
  eapply (@createClass_frame plainCollaborators "Person" [fullName; actions; store]
            "EmberObject" []).
  reflexivity.
Defined.


(** * Further properties of the helpers *)

(** ** What the rewriter computes *)

(** X9.  For every method, [replaceSuperExpressions] returns the method with
    its function, and the expressions of the decorators it holds, rewritten
    by [delegate_expr]: at any depth, exactly the expression statements that
    the filter matches (a call whose callee is a member expression with the
    property identifier [_super], whatever the receiver and the [computed]
    flag) are replaced by the expression statement [super.<key>(<args>)]
    without comments, whose callee is built by [j.memberExpression] and
    whose arguments are the original ones, rewritten in the same way; the
    callee of the replaced call is dropped with all it holds.  An expression
    statement the filter does not match keeps its expression (rewritten
    inside) and its comments, and a call in any other position stays a
    call. *)
Theorem replaceSuperExpressions_delegates (m : MethodDefinition.t) :
  replaceSuperExpressions m
  = MethodDefinition.mk (MethodDefinition.kind m) (MethodDefinition.key m)
      (delegate_expr (MethodDefinition.key m) (MethodDefinition.value m))
      (MethodDefinition.comments m)
      (map (delegate_decorator (MethodDefinition.key m)) (MethodDefinition.decorators m))
  /\ (forall callee args cs,
        superExprFilter (ExpressionStatement (CallExpression callee args) cs) = true ->
        delegate_stmt (MethodDefinition.key m)
          (ExpressionStatement (CallExpression callee args) cs)
        = ExpressionStatement
            (CallExpression
               (memberExpression Super (key_node (MethodDefinition.key m)))
               (map (delegate_expr (MethodDefinition.key m)) args))
            [])
  /\ (forall e cs,
        superExprFilter (ExpressionStatement e cs) = false ->
        delegate_stmt (MethodDefinition.key m) (ExpressionStatement e cs)
        = ExpressionStatement (delegate_expr (MethodDefinition.key m) e) cs)
  /\ (forall callee args,
        delegate_expr (MethodDefinition.key m) (CallExpression callee args)
        = CallExpression (delegate_expr (MethodDefinition.key m) callee)
            (map (delegate_expr (MethodDefinition.key m)) args)).
Proof.
  split_and!.
  - apply replaceSuperExpressions_value.
  - intros callee args cs. apply delegate_stmt_match.
  - intros e cs. apply delegate_stmt_plain.
  - done.
Qed.

(** ** What the rewriter leaves behind *)

Lemma under_nil s : under s [] = [].
Proof. done. Qed.

Lemma each_nil {A} (find : A -> list NodePath) (l : list A) :
  Forall (fun x => find x = []) l -> forall i, each find i l = [].
Proof.
  induction 1 as [|x l Hx _ IH]; intros i; [done|]. cbn. by rewrite Hx, IH.
Qed.

Lemma map_fixed {A} (f : A -> A) (l : list A) :
  map f l = l -> Forall (fun x => f x = x) l.
Proof.
  induction l as [|x l IH]; [constructor|].
  cbn. intros [= Hx Hl]. constructor; auto.
Qed.

(** A method that is not itself named [_super] calls [super] through a
    property the filter does not match. *)
Lemma super_call_unmatched key args cs :
  key <> KeyIdentifier "_super" ->
  superExprFilter
    (ExpressionStatement
       (CallExpression (memberExpression Super (key_node key)) args) cs) = false.
Proof.
  intros Hkey. destruct key as [name|raw]; [|done].
  cbn. apply String.eqb_neq. congruence.
Qed.

(** Nothing is found in a rewritten tree. *)
Lemma find_delegate key :
  key <> KeyIdentifier "_super" ->
  (forall e, find_expr superExprFilter (delegate_expr key e) = []
             /\ match e with
                | CallExpression _ args =>
                    Forall (fun x => find_expr superExprFilter (delegate_expr key x) = [])
                      args
                | _ => True
                end)
  /\ (forall p, find_prop superExprFilter (delegate_prop key p) = [])
  /\ (forall s, find_stmt superExprFilter (delegate_stmt key s) = []).
Proof.
  intros Hkey.
  assert (forall (A : Type) (find : A -> list NodePath) (f : A -> A) (l : list A),
             Forall (fun x => find (f x) = []) l -> each find 0 (map f l) = []) as Heach.
  { intros A find f l Hl. apply each_nil. by apply Forall_fmap. }
  assert (forall (P Q : expr -> Prop) (l : list expr),
             Forall (fun x => P x /\ Q x) l -> Forall P l) as Hfst.
  { intros P Q l Hl. eapply List.Forall_impl; [|exact Hl]. by intros x [Hx _]. }
  apply ast_ind; try done.
  - intros o p c [IHo _] [IHp _]. split; [|done]. cbn. by rewrite IHo, IHp.
  - intros c args [IHc _] IHargs. apply Hfst in IHargs.
    split; [|done]. cbn. by rewrite IHc, Heach.
  - intros op l r [IHl _] [IHr _]. split; [|done]. cbn. by rewrite IHl, IHr.
  - intros id ps b IHps IHb. apply Hfst in IHps.
    split; [|done]. cbn. by rewrite IHb, Heach.
  - intros props IHprops. split; [|done]. cbn. by rewrite Heach.
  - intros k pk v cs [IHv _]. cbn. by rewrite IHv.
  - intros e cs [IHe Hsub].
    destruct (superExprFilter (ExpressionStatement e cs)) eqn:Hf.
    + destruct e as [| | | |o p c|callee args| | |]; try done.
      rewrite (delegate_stmt_match _ _ _ _ Hf).
      cbn [find_stmt visitExpressionStatement]. rewrite super_call_unmatched by done.
      cbn [find_expr]. rewrite Heach by done.
      by destruct key.
    + rewrite (delegate_stmt_plain _ _ _ Hf).
      cbn [find_stmt visitExpressionStatement].
      rewrite (superExprFilter_delegate key e cs cs), Hf. by rewrite IHe.
  - intros b IHb. cbn. by rewrite Heach.
  - intros t c a [IHt _] IHc IHa. cbn. rewrite IHt, IHc.
    destruct a as [a'|]; [|done]. cbn in IHa. by rewrite IHa.
  - intros t b [IHt _] IHb. cbn. by rewrite IHt, IHb.
  - intros a IHa. destruct a as [a'|]; [|done]. cbn in *. destruct IHa as [IHa _].
    by rewrite IHa.
Qed.

(** X1.  After [replaceSuperExpressions], a method that is not itself named
    [_super] holds no statement that the filter matches: a second search
    finds nothing. *)
Theorem replaceSuperExpressions_leaves_no_match (m : MethodDefinition.t) :
  MethodDefinition.key m <> KeyIdentifier "_super" ->
  find_method superExprFilter (replaceSuperExpressions m) = [].
Proof.
  intros Hkey. rewrite replaceSuperExpressions_value. unfold find_method. cbn.
  rewrite (proj1 (proj1 (find_delegate _ Hkey) _)).
  rewrite each_nil; [done|].
  apply Forall_fmap, Forall_true. intros [e]. cbn.
  by rewrite (proj1 (proj1 (find_delegate _ Hkey) _)).
Qed.

(** A tree that the rewriting leaves as it is holds no match. *)
Lemma delegate_fixed key :
  key <> KeyIdentifier "_super" ->
  (forall e, delegate_expr key e = e -> find_expr superExprFilter e = [])
  /\ (forall p, delegate_prop key p = p -> find_prop superExprFilter p = [])
  /\ (forall s, delegate_stmt key s = s -> find_stmt superExprFilter s = []).
Proof.
  intros Hkey.
  assert (forall (A : Type) (find : A -> list NodePath) (f : A -> A) (l : list A),
             Forall (fun x => f x = x -> find x = []) l ->
             map f l = l -> each find 0 l = []) as Heach.
  { intros A find f l Hl Hmap. apply each_nil. apply map_fixed in Hmap.
    induction Hl as [|x l Hx _ IH]; [constructor|].
    inversion Hmap; subst. constructor; auto. }
  apply ast_ind; try done.
  - intros o p c IHo IHp. cbn. intros [= Ho Hp]. by rewrite IHo, IHp.
  - intros c args IHc IHargs. cbn. intros [= Hc Hargs].
    by rewrite IHc, (Heach _ _ _ _ IHargs Hargs).
  - intros op l r IHl IHr. cbn. intros [= Hl Hr]. by rewrite IHl, IHr.
  - intros id ps b IHps IHb. cbn. intros [= Hps Hb].
    by rewrite IHb, (Heach _ _ _ _ IHps Hps).
  - intros props IHprops. cbn. intros [= Hprops]. by rewrite (Heach _ _ _ _ IHprops Hprops).
  - intros k pk v cs IHv. cbn. intros [= Hv]. by rewrite IHv.
  - intros e cs IHe.
    destruct (superExprFilter (ExpressionStatement e cs)) eqn:Hf.
    + destruct e as [| | | |o p c|callee args| | |]; try done.
      rewrite (delegate_stmt_match _ _ _ _ Hf). intros Heq.
      rewrite <- Heq in Hf. by rewrite super_call_unmatched in Hf.
    + rewrite (delegate_stmt_plain _ _ _ Hf). intros [= He].
      cbn [find_stmt visitExpressionStatement]. by rewrite Hf, IHe.
  - intros b IHb. cbn. intros [= Hb]. by rewrite (Heach _ _ _ _ IHb Hb).
  - intros t c a IHt IHc IHa. cbn. intros [= Ht Hc Ha]. rewrite IHt, IHc by done.
    destruct a as [a'|]; [|done]. cbn in IHa. injection Ha as Ha. by rewrite IHa.
  - intros t b IHt IHb. cbn. intros [= Ht Hb]. by rewrite IHt, IHb.
  - intros a IHa. destruct a as [a'|]; [|done]. cbn in *. intros [= Ha]. by rewrite IHa.
Qed.

(** X2.  [replaceSuperExpressions] returns a method that is not itself named
    [_super] unchanged exactly when the search finds no match in it. *)
Theorem replaceSuperExpressions_unchanged_iff (m : MethodDefinition.t) :
  MethodDefinition.key m <> KeyIdentifier "_super" ->
  replaceSuperExpressions m = m <-> find_method superExprFilter m = [].
Proof.
  intros Hkey. split.
  - rewrite replaceSuperExpressions_value. destruct m as [kind key value comments ds].
    cbn in *. intros [= Hv Hds]. unfold find_method. cbn.
    rewrite (proj1 (delegate_fixed _ Hkey) _ Hv).
    rewrite each_nil; [done|].
    apply map_fixed in Hds. eapply List.Forall_impl; [|exact Hds].
    intros [e] [= He]. cbn. by rewrite (proj1 (delegate_fixed _ Hkey) _ He).
  - intros Hfind. unfold replaceSuperExpressions. rewrite Hfind. done.
Qed.

(** ** The method synthesizer, once more *)

(** The rewriting keeps a function a function. *)
Lemma is_function_delegate key v : is_function (delegate_expr key v) = is_function v.
Proof. by destruct v. Qed.

(** X3.  [createMethodProp] returns exactly when the value of the function
    property is a function and its kind is [init] or a kind the method
    builder accepts ([constructor], [method], [get], [set]); otherwise it
    throws the [Error] of the builder.  The method it returns has the key
    and the comments of the property and exactly the decorators given, in
    their order; its kind is [method] for the kind [init] and the kind of
    the property otherwise; and its function needs no further rewriting: the
    method made of the property as the call leaves it, with the function
    rewritten in place, is the same method. *)
Theorem createMethodProp_settled (functionProp : FunctionProp.t) (decorators : list Decorator) :
  if buildable functionProp then
    exists m,
      createMethodProp functionProp decorators = Ok m
      /\ MethodDefinition.key m = FunctionProp.key functionProp
      /\ MethodDefinition.comments m = FunctionProp.comments functionProp
      /\ MethodDefinition.decorators m = decorators
      /\ MethodDefinition.kind m
         = (if bool_decide (FunctionProp.kind functionProp = "init") then "method"
            else FunctionProp.kind functionProp)
      /\ delegate_expr (MethodDefinition.key m) (MethodDefinition.value m)
         = MethodDefinition.value m
      /\ createMethodProp
           (FunctionProp.mk (FunctionProp.kind functionProp) (FunctionProp.key functionProp)
              (MethodDefinition.value m) (FunctionProp.comments functionProp))
           decorators
         = Ok m
  else createMethodProp functionProp decorators = Throw "Error".
Proof.
  rewrite createMethodProp_spec.
  destruct (buildable functionProp) eqn:Hb; [|done].
  eexists. split_and!; try done.
  - cbn. unfold method_kind. case_bool_decide as Hk.
    + by rewrite Hk.
    + apply String.eqb_neq in Hk. by rewrite Hk.
  - cbn. apply (proj1 (proj1 (delegate_idempotent _) _)).
  - rewrite createMethodProp_spec. unfold buildable in *. cbn in *.
    rewrite is_function_delegate, Hb.
    by rewrite (proj1 (proj1 (delegate_idempotent _) _)).
Qed.

Section MoreHelperProperties.
Context `{Collaborators}.

(** ** The two branches of the call-expression handler *)


(** X5.  On a call whose last argument is an object expression with one
    entry or more, of all of which a method can be made (the value is a
    function expression, and the kind the collaborator names for the entry
    is [init] or one the method builder accepts), the handler returns one
    method per entry, in the order of the entries.  Every method has the key
    of the property; the method of an entry has the kind the collaborator
    names for the entry ([method] for [init]) and the function of the entry
    without its first parameter, rewritten.  The first method has the
    comments of the property and the decorators the collaborator derives
    from the property as it reads once the entries have been changed (the
    changed object expression in the last slot of its call arguments, its
    value as the adapter reads it); every other method has the comments of
    its entry and no decorator. *)
Theorem createCallExpressionProp_object_branch (callExprProp : EOProp.t)
    (first : prop) (rest : list prop) :
  list.last (EOProp.callExprArgs callExprProp) = Some (ObjectExpression (first :: rest)) ->
  forallb entry_usable (first :: rest) = true ->
  exists firstMethod restMethods change,
    createCallExpressionProp callExprProp
    = Ok (map Method (firstMethod :: restMethods), change)
    /\ change
       = LastArgChanged
           (ObjectExpression (map (entry_after (EOProp.key callExprProp)) (first :: rest)))
    /\ length restMethods = length rest
    /\ Forall2
         (fun entry m =>
            match entry with
            | Property _ _ (FunctionExpression id params body) _ =>
                MethodDefinition.key m = EOProp.key callExprProp
                /\ MethodDefinition.kind m
                   = (if bool_decide (getPropName entry = "init") then "method"
                      else getPropName entry)
                /\ MethodDefinition.value m
                   = delegate_expr (EOProp.key callExprProp)
                       (FunctionExpression id (tail params) body)
            | _ => False
            end)
         (first :: rest) (firstMethod :: restMethods)
    /\ MethodDefinition.comments firstMethod = EOProp.comments callExprProp
    /\ MethodDefinition.decorators firstMethod
       = createInstancePropDecorators (left_by change callExprProp)
    /\ Forall2
         (fun entry m =>
            MethodDefinition.comments m
            = FunctionProp.comments (FunctionProp.of_Property entry)
            /\ MethodDefinition.decorators m = [])
         rest restMethods.
Proof.
  intros Hlast Hall.
  exists (MethodDefinition.mk
            (MethodDefinition.kind (entry_method (EOProp.key callExprProp) first))
            (EOProp.key callExprProp)
            (MethodDefinition.value (entry_method (EOProp.key callExprProp) first))
            (EOProp.comments callExprProp)
            (createInstancePropDecorators (left_by (call_change callExprProp) callExprProp))),
    (map (entry_method (EOProp.key callExprProp)) rest), (call_change callExprProp).
  split_and!.
  - rewrite (createCallExpressionProp_object _ _ Hlast), (entries_error_usable _ Hall).
    cbn [map]. do 3 f_equal. apply list_fmap_compose.
  - unfold call_change. by rewrite Hlast.
  - apply length_map.
  - assert (forall entry,
              entry_usable entry = true ->
              match entry with
              | Property _ _ (FunctionExpression id params body) _ =>
                  MethodDefinition.key (entry_method (EOProp.key callExprProp) entry)
                  = EOProp.key callExprProp
                  /\ MethodDefinition.kind (entry_method (EOProp.key callExprProp) entry)
                     = (if bool_decide (getPropName entry = "init") then "method"
                        else getPropName entry)
                  /\ MethodDefinition.value (entry_method (EOProp.key callExprProp) entry)
                     = delegate_expr (EOProp.key callExprProp)
                         (FunctionExpression id (tail params) body)
              | _ => False
              end) as Hentry.
    { intros [k key v cs] Hp. apply andb_true_iff in Hp as [Hp _].
      destruct v; try done. cbn. split_and!; try done.
      unfold method_kind. case_bool_decide as Hk.
      - by rewrite Hk.
      - apply String.eqb_neq in Hk. by rewrite Hk. }
    cbn [forallb] in Hall. apply andb_true_iff in Hall as [Hfirst Hrest].
    constructor.
    + specialize (Hentry first Hfirst). destruct first as [k key v cs].
      by destruct v.
    + apply Forall2_fmap_r, Forall_Forall2_diag, Forall_forall.
      intros entry Hin. apply Hentry.
      rewrite forallb_forall in Hrest. by apply Hrest.
  - done.
  - done.
  - apply Forall2_fmap_r, Forall_Forall2_diag, Forall_true.
    by intros [k key v cs].
Qed.

(** ** The class assembler, once more *)

Lemma class_decorators_filter (props : list EOProp.t) :
  concat (map class_decorators_of props)
  = map createClassDecorator (List.filter EOProp.isClassDecorator props).
Proof.
  induction props as [|prop props IH]; [done|].
  cbn. rewrite IH. unfold class_decorators_of, classify.
  destruct (EOProp.isClassDecorator prop); [done|].
  by repeat case_match.
Qed.

(** X6.  Whenever [createClass] returns, the class is named by the identifier
    of the class name, or anonymous when the name is empty; it always has a
    superclass expression, the one [createSuperClassExpression] builds; and
    its decorators are the class decorators of the properties flagged as class
    decorators, one for each, in the order of the properties. *)
Theorem createClass_header (className : string) (instanceProps : list EOProp.t)
    (superClassName : string) (mixins : list expr) class instanceProps' :
  createClass className instanceProps superClassName mixins = Ok (class, instanceProps') ->
  ClassDeclaration.id class
  = (if bool_decide (className = "") then None else Some (Identifier className))
  /\ ClassDeclaration.superClass class
     = Some (createSuperClassExpression superClassName mixins)
  /\ ClassDeclaration.decorators class
     = map createClassDecorator (List.filter EOProp.isClassDecorator instanceProps).
Proof.
  unfold createClass. rewrite createClass_loop.
  destruct (map_result members_of instanceProps) as [memberss|e]; [|done].
  cbn. rewrite class_decorators_filter. intros [= <- _].
  assert ((if String.eqb className "" then None else Some (Identifier className))
          = (if bool_decide (className = "") then None else Some (Identifier className)))
    as ->.
  { case_bool_decide as Hn; [by rewrite Hn|]. apply String.eqb_neq in Hn. by rewrite Hn. }
  by destruct (map createClassDecorator _).
Qed.

(** One turn of the loop throws exactly on the properties for which
    [visit_error] names an exception, and throws that one. *)
Lemma members_of_error (prop : EOProp.t) :
  match visit_error prop with
  | Some e => members_of prop = Throw e
  | None => exists members, members_of prop = Ok members
  end.
Proof.
  unfold visit_error, members_of.
  destruct (classify prop); try by eexists.
  - rewrite createMethodProp_spec. destruct (buildable _); [by eexists|done].
  - destruct (list.last (EOProp.callExprArgs prop)) as [lastArg|] eqn:Hlast.
    + destruct lastArg;
        try (destruct (createCallExpressionProp_other prop) as [-> _];
             [by unfold lastArg_recognized; rewrite Hlast|by eexists]).
      * rewrite (createCallExpressionProp_function _ _ _ _ Hlast).
        destruct (is_method_kind _); [by eexists|done].
      * rewrite (createCallExpressionProp_object _ _ Hlast).
        destruct (entries_error properties); [done|].
        destruct properties as [|first rest]; [done|]. by eexists.
    + destruct (createCallExpressionProp_other prop) as [-> _];
        [by unfold lastArg_recognized; rewrite Hlast|by eexists].
  - destruct (EOProp.value prop) eqn:Hv;
      try (unfold createActionDecoratedProps; rewrite Hv; done).
    rewrite (createActionDecoratedProps_object _ _ Hv).
    destruct (forallb action_usable properties); [by eexists|done].
Qed.

(** X7.  [createClass] throws exactly when the turn of some property throws,
    and it throws the exception of the first such property ([first_error]).
    The turn of a property throws the [Error] of the method builder when the
    property is handled as a method and its kind is neither [init] nor one
    the builder accepts or its value is not a function; when it is handled
    as a call whose last argument is a function and its kind is neither
    [init] nor one the builder accepts; when it is handled as the [actions]
    hash, its value is an object expression, and some entry has such a kind
    or a value that is not a function.  When it is handled as a call whose
    last argument is an object expression, the entries are taken in their
    order: an entry whose value is not a function expression gives a
    [TypeError], an entry for which the collaborator names a kind that is
    neither [init] nor one the builder accepts gives an [Error], and the
    first such entry decides; with no such entry, an object expression
    without entries gives a [TypeError].  The [actions] hash whose value is
    not an object expression gives a [TypeError].  On every other list of
    properties, the empty one included, [createClass] returns a class and
    leaves the properties as [prop_after] describes. *)
Theorem createClass_throws_iff (className : string) (instanceProps : list EOProp.t)
    (superClassName : string) (mixins : list expr) :
  match first_error instanceProps with
  | Some e => createClass className instanceProps superClassName mixins = Throw e
  | None =>
      exists class,
        createClass className instanceProps superClassName mixins
        = Ok (class, map prop_after instanceProps)
  end.
Proof.
  unfold createClass. rewrite createClass_loop.
  assert (match first_error instanceProps with
          | Some e => map_result members_of instanceProps = Throw e
          | None => exists memberss, map_result members_of instanceProps = Ok memberss
          end) as Hall.
  { induction instanceProps as [|prop props IH]; [by eexists|].
    cbn [first_error map_result]. pose proof (members_of_error prop) as Hprop.
    destruct (visit_error prop).
    - by rewrite Hprop.
    - destruct Hprop as [members ->]. cbn.
      destruct (first_error props).
      + by rewrite IH.
      + destruct IH as [memberss ->]. by eexists. }
  destruct (first_error instanceProps).
  - by rewrite Hall.
  - destruct Hall as [memberss ->]. by eexists.
Qed.

(** The rule that matches a property is the same before and after. *)
Lemma classify_after (prop : EOProp.t) : classify (prop_after prop) = classify prop.
Proof.
  destruct (prop_after_description prop) as (_ & _ & Ht & _ & Hn & _ & Hd & Hc & _).
  unfold classify. by rewrite Ht, Hn, Hd, Hc.
Qed.

Lemma createMethodProp_after (key : Key) (kind : string) (v : expr) cs ds :
  createMethodProp (FunctionProp.mk kind key (delegate_expr key v) cs) ds
  = createMethodProp (FunctionProp.mk kind key v cs) ds.
Proof.
  rewrite !createMethodProp_spec. unfold buildable. cbn.
  by rewrite is_function_delegate, (proj1 (proj1 (delegate_idempotent _) _)).
Qed.

(** The entries of the [actions] hash, once turned into methods, give the
    same methods again. *)
Lemma action_after_again (entries : list prop) :
  forallb action_usable (map action_after entries) = forallb action_usable entries
  /\ map action_method (map action_after entries) = map action_method entries
  /\ map action_after (map action_after entries) = map action_after entries.
Proof.
  induction entries as [|[k key v cs] entries (IH1 & IH2 & IH3)]; [done|].
  cbn [map forallb]. rewrite IH1, IH2, IH3. split_and!.
  - f_equal. unfold action_usable, buildable. cbn. by rewrite is_function_delegate.
  - f_equal. cbn. by rewrite (proj1 (proj1 (delegate_idempotent _) _)).
  - f_equal. cbn. by rewrite (proj1 (proj1 (delegate_idempotent _) _)).
Qed.

(** A property that is not handled as a call expression contributes the same
    members, and is left the same, when it is visited once more. *)
Lemma visit_again (prop : EOProp.t) :
  is_call_rule prop = false ->
  members_of (prop_after prop) = members_of prop
  /\ class_decorators_of (prop_after prop) = class_decorators_of prop
  /\ prop_after (prop_after prop) = prop_after prop.
Proof.
  intros Hrule. pose proof (classify_after prop) as Hc.
  unfold is_call_rule in Hrule.
  assert (forall p, prop_after p
                    = match classify p with
                      | ClassDecoratorRule | FieldRule => p
                      | MethodRule =>
                          EOProp.with_value
                            (delegate_expr (EOProp.key p) (EOProp.value p)) p
                      | CallExpressionRule => left_by (call_change p) p
                      | ActionsRule =>
                          match EOProp.value p with
                          | ObjectExpression entries =>
                              EOProp.with_value
                                (ObjectExpression (map action_after entries)) p
                          | _ => p
                          end
                      end) as Hunfold by done.
  rewrite (Hunfold (prop_after prop)).
  unfold members_of, class_decorators_of. rewrite Hc.
  destruct (classify prop) eqn:Hrule'; try done; clear Hc;
    rewrite (Hunfold prop), Hrule'; try done.
  - split_and!; try done.
    + destruct prop. unfold FunctionProp.of_EOProp, EOProp.with_value.
      cbn -[createMethodProp]. by rewrite createMethodProp_after.
    + destruct prop. cbn. by rewrite (proj1 (proj1 (delegate_idempotent _) _)).
  - destruct (EOProp.value prop) eqn:Hv; try by rewrite Hv.
    destruct (action_after_again properties) as (Husable & Hmethods & Hidem).
    split_and!; try done.
    + rewrite (createActionDecoratedProps_object _ _ Hv).
      rewrite (createActionDecoratedProps_object _ (map action_after properties)) by done.
      rewrite Husable, Hmethods.
      by destruct (forallb action_usable properties).
    + cbn. by rewrite Hidem.
Qed.

(** X8.  When no property is handled as a call expression and [createClass]
    returns, calling it again on the properties as the first call left them
    returns the same class and leaves the properties as they are: the
    statements rewritten in place by the first call are not rewritten
    again. *)
Theorem createClass_again (className : string) (instanceProps : list EOProp.t)
    (superClassName : string) (mixins : list expr) class instanceProps' :
  existsb is_call_rule instanceProps = false ->
  createClass className instanceProps superClassName mixins = Ok (class, instanceProps') ->
  createClass className instanceProps' superClassName mixins = Ok (class, instanceProps').
Proof.
  intros Hrules. unfold createClass. rewrite !createClass_loop.
  destruct (map_result members_of instanceProps) as [memberss|e] eqn:Hm; [|done].
  cbn. intros [= <- <-].
  assert (map_result members_of (map prop_after instanceProps) = Ok memberss
          /\ concat (map class_decorators_of (map prop_after instanceProps))
             = concat (map class_decorators_of instanceProps)
          /\ map prop_after (map prop_after instanceProps) = map prop_after instanceProps)
    as (-> & -> & ->); [|done].
  clear className superClassName mixins.
  revert memberss Hm. induction instanceProps as [|prop props IH]; intros memberss Hm.
  { done. }
  cbn [existsb] in Hrules. apply orb_false_iff in Hrules as [Hprop Hprops].
  destruct (visit_again prop Hprop) as (Hmem & Hdec & Hafter).
  cbn [map map_result concat] in *. rewrite Hmem, Hdec, Hafter.
  destruct (members_of prop) as [members|]; [|done].
  destruct (map_result members_of props) as [rest|]; [|done].
  destruct (IH Hprops rest eq_refl) as (-> & -> & ->). by injection Hm as <-.
Qed.
End MoreHelperProperties.

(** ** The further properties at the sample inputs *)

(** X1, witness: [init() { other._super(function () { this._super(); }); }]. *)
Lemma replaceSuperExpressions_leaves_no_match_witness :
  MethodDefinition.key init_method <> KeyIdentifier "_super"
  /\ find_method superExprFilter (replaceSuperExpressions init_method) = [].
Proof.
  split; [discriminate|].
  apply (replaceSuperExpressions_leaves_no_match init_method). discriminate.
Defined.

(** X2, witness: the same method, in which the search finds two matches. *)
Lemma replaceSuperExpressions_unchanged_iff_witness :
  MethodDefinition.key init_method <> KeyIdentifier "_super"
  /\ (replaceSuperExpressions init_method = init_method
      <-> find_method superExprFilter init_method = []).
Proof.
  split; [discriminate|].
  apply (replaceSuperExpressions_unchanged_iff init_method). discriminate.
Defined.


(** X5, witness: [fullName: computed({ get(key) {...}, set(key, value) {...} })]. *)
Lemma createCallExpressionProp_object_branch_witness :
  list.last (EOProp.callExprArgs fullName)
  = Some (ObjectExpression
            [ Property "init" (KeyIdentifier "get") (fn ["key"] [ReturnStatement None])
                ["getter"];
              Property "init" (KeyIdentifier "set") (fn ["key"; "value"] []) [] ])
  /\ forallb (@entry_usable plainCollaborators)
       [ Property "init" (KeyIdentifier "get") (fn ["key"] [ReturnStatement None])
           ["getter"];
         Property "init" (KeyIdentifier "set") (fn ["key"; "value"] []) [] ] = true
  /\ exists firstMethod restMethods change,
       @createCallExpressionProp plainCollaborators fullName
       = Ok (map Method (firstMethod :: restMethods), change)
       /\ length restMethods = 1
       /\ MethodDefinition.comments firstMethod = ["full name"].
Proof.
  split; [reflexivity|]. split; [reflexivity|].
  destruct (@createCallExpressionProp_object_branch plainCollaborators fullName
              (Property "init" (KeyIdentifier "get") (fn ["key"] [ReturnStatement None])
                 ["getter"])
              [Property "init" (KeyIdentifier "set") (fn ["key"; "value"] []) []]
              eq_refl eq_refl)
    as (firstMethod & restMethods & change & Hcall & _ & Hlen & _ & Hcomments & _).
  exists firstMethod, restMethods, change. split; [exact Hcall|]. split; assumption.
Defined.

(** X6, witness: a class made of [classNames] and [fullName]. *)
Lemma createClass_header_witness :
  exists class instanceProps',
    @createClass plainCollaborators "Person" [classNames; fullName] "EmberObject"
      [Identifier "Tracked"]
    = Ok (class, instanceProps')
    /\ ClassDeclaration.id class = Some (Identifier "Person")
    /\ ClassDeclaration.superClass class
       = Some (CallExpression
                 (MemberExpression (Identifier "EmberObject") (Identifier "extend") false)
                 [Identifier "Tracked"])
    /\ ClassDeclaration.decorators class = [mkDecorator (Identifier "classNames")].
Proof.
  eexists _, _. split; [reflexivity|].
  eapply (@createClass_header plainCollaborators "Person" [classNames; fullName]
            "EmberObject" [Identifier "Tracked"]).
  reflexivity.
Defined.

(** X7, evaluated: the class of [init] and [actions: { limit: 1 }] is not
    made, the method builder throws; the class of [store] and
    [cache: computed({})] is not made either, for want of a first method. *)
Example createClass_throws :
  @createClass plainCollaborators "Person" [init_prop; settings] "EmberObject" []
  = Throw "Error"
  /\ @createClass plainCollaborators "Person" [store; cache] "EmberObject" []
     = Throw "TypeError".
Proof. split; reflexivity. Qed.

(** X8, witness: a class made of [init], [actions] and [classNames], made
    again of the properties the first call leaves. *)
Lemma createClass_again_witness :
  existsb is_call_rule [init_prop; actions; classNames] = false
  /\ exists class instanceProps',
       @createClass plainCollaborators "Person" [init_prop; actions; classNames]
         "EmberObject" []
       = Ok (class, instanceProps')
       /\ @createClass plainCollaborators "Person" instanceProps' "EmberObject" []
          = Ok (class, instanceProps').
Proof.
  split; [reflexivity|]. eexists _, _. split; [reflexivity|].
  apply (@createClass_again plainCollaborators "Person" [init_prop; actions; classNames]
           "EmberObject" []); reflexivity.
Defined.
